(** * spooky-watcher: a polling file-system watcher (event.go, watch.go)

    A shallow embedding of the event model, the registry operations, the
    listing functions and the diff engine ([pollEvents]), followed by the
    properties of the program that the specification states. *)

From Stdlib Require Import ZArith Lia.
From stdpp Require Import base option list gmap strings fin_maps fin_sets.

Local Open Scope string_scope.
Local Open Scope Z_scope.
Local Open Scope list_scope.

(** ** Go runtime conventions

    A block of statements can run to its end or leave early.  Two early
    exits occur in this program: a method call on a nil interface value (a
    run-time panic, which takes the process down) and a [return] from inside
    a loop, which every [<-w.closed] arm of a [select] does. *)

Inductive exit (R : Type) : Type :=
  | NilDeref              (* panic: method call on a nil interface *)
  | Return (r : R).       (* [return r] from inside a loop *)
Arguments NilDeref {R}.
Arguments Return {R} r.

(** [chan T R A]: a block that sends messages of type [T] on an unbuffered
    channel, in order, and then yields [A], or leaves the function early
    (which returns [R]). *)
Definition chan (T R A : Type) : Type := (list T * (exit R + A))%type.

#[global] Instance chan_ret {T R} : MRet (chan T R) :=
  λ A a, ([], inr a).

#[global] Instance chan_bind {T R} : MBind (chan T R) :=
  λ A B k m,
    match m with
    | (out, inl e) => (out, inl e)
    | (out, inr a) => let '(out', r) := k a in (out ++ out', r)
    end.

Definition raise {T R A} (e : exit R) : chan T R A := ([], inl e).

(** What was sent, and how the computation ended. *)
Definition sent {T R A} (m : chan T R A) : list T := m.1.
Definition ending {T R A} (m : chan T R A) : exit R + A := m.2.

(** [for k, v := range l { s = body(s, k, v) }] over an enumeration [l]. *)
Fixpoint forRange {T R X S} (l : list X) (body : S → X → chan T R S) (s : S)
  : chan T R S :=
  match l with
  | [] => mret s
  | x :: l' => s' ← body s x; forRange l' body s'
  end.

(** ** event.go *)

(** [type Op uint32] with [Create Op = 1 << iota] and the following lines. *)
Abbreviation Op := Z (only parsing).

Definition Create : Op := Z.shiftl 1 0.
Definition Remove : Op := Z.shiftl 1 1.
Definition Modify : Op := Z.shiftl 1 2.
Definition Rename : Op := Z.shiftl 1 3.
Definition Chmod  : Op := Z.shiftl 1 4.
Definition Move   : Op := Z.shiftl 1 5.

(** The concrete value behind an [os.FileInfo]: what [os.Stat] captured.
    [Dev] and [Ino] are the pair [os.SameFile] compares; [ModTime] is the
    instant (in nanoseconds) that [time.Time.Equal] compares. *)
Record fileStat : Type := mkStat {
  ModTime : Z;
  Size : Z;
  IsDir : bool;
  Dev : Z;
  Ino : Z
}.

#[global] Instance fileStat_eq_dec : EqDecision fileStat.
Proof. solve_decision. Defined.

(** [os.FileInfo] is an interface: [None] is the nil interface value. *)
Abbreviation FileInfo := (option fileStat) (only parsing).

Record Event : Type := mkEvent {
  e_FileInfo : FileInfo;
  e_Path : string;
  e_Op : Op
}.

#[global] Instance Event_eq_dec : EqDecision Event.
Proof. solve_decision. Defined.

(** Method calls on an [os.FileInfo]; each dereferences the interface. *)
Definition call {T R A} (f : fileStat → A) (fi : FileInfo) : chan T R A :=
  match fi with
  | Some st => mret (f st)
  | None => raise NilDeref
  end.

(** [func (op Op) String() string] *)
Definition Op_String (op : Op) : string :=
  let buffer := "" in
  let buffer := if Z.land op Create =? Create then buffer +:+ "|CREATE" else buffer in
  let buffer := if Z.land op Remove =? Remove then buffer +:+ "|REMOVE" else buffer in
  let buffer := if Z.land op Modify =? Modify then buffer +:+ "|MODIFY" else buffer in
  let buffer := if Z.land op Rename =? Rename then buffer +:+ "|RENAME" else buffer in
  let buffer := if Z.land op Chmod =? Chmod then buffer +:+ "|CHMOD" else buffer in
  let buffer := if Z.land op Move =? Move then buffer +:+ "|MOVE" else buffer in
  if (String.length buffer =? 0)%nat then ""
  else String.substring 1 (String.length buffer - 1) buffer.

(** [func (e *Event) IsDirEvent() bool]; the receiver is a pointer, [None]
    is the nil pointer. *)
Definition IsDirEvent (e : option Event) : chan Empty_set bool bool :=
  match e with
  | None => mret false
  | Some ev => call IsDir (e_FileInfo ev)
  end.

(** [func (e *Event) HasOps(ops ...Op) bool] *)
Fixpoint HasOps_loop (eop : Op) (ops : list Op) : bool :=
  match ops with
  | [] => false
  | op :: ops' => if negb (Z.land eop op =? 0) then true else HasOps_loop eop ops'
  end.

Definition HasOps (e : option Event) (ops : list Op) : bool :=
  match e with
  | None => false
  | Some ev => HasOps_loop (e_Op ev) ops
  end.

(** The flags of the vocabulary that are set in [op]. *)
Definition allOps : list Op := [Create; Remove; Modify; Rename; Chmod; Move].
Definition flagsOf (op : Op) : list Op :=
  filter (λ f, Z.land op f ≠ 0) allOps.

(** ** Errors and the file system *)

Inductive Errno : Type := ENOENT | EACCES | EIO | ENOTDIR.

(** The error values of the program: [*fs.PathError] as returned by
    [os.Stat], [os.ReadDir] and [DirEntry.Info], and the plain string errors
    made by [errors.New] and by [fmt.Errorf] with no [%w] verb. *)
Inductive error : Type :=
  | PathError (op path : string) (errno : Errno)
  | errorString (s : string).

#[global] Instance Errno_eq_dec : EqDecision Errno.
Proof. solve_decision. Defined.
#[global] Instance error_eq_dec : EqDecision error.
Proof. solve_decision. Defined.

Definition ErrWatcherStarted : error := errorString "watcher already started".
Definition ErrWatcherClosed : error := errorString "watcher already closed".

Definition ErrnoError (e : Errno) : string :=
  match e with
  | ENOENT => "no such file or directory"
  | EACCES => "permission denied"
  | EIO => "input/output error"
  | ENOTDIR => "not a directory"
  end.

(** [err.Error()] *)
Definition Error (err : error) : string :=
  match err with
  | PathError op path e => op +:+ " " +:+ path +:+ ": " +:+ ErrnoError e
  | errorString s => s
  end.

(** [os.IsNotExist]: unwraps a [*PathError] (not [Unwrap] chains) and asks
    whether the underlying errno is ENOENT; any other error value is
    compared with [ErrNotExist] by identity, which a fresh string error
    never is. *)
Definition IsNotExist (err : error) : bool :=
  match err with
  | PathError _ _ ENOENT => true
  | PathError _ _ _ => false
  | errorString _ => false
  end.

(** [(value, err)] results. *)
Inductive result (A : Type) : Type :=
  | OK (a : A)
  | Fail (err : error).
Arguments OK {A} a.
Arguments Fail {A} err.

(** [fs.DirEntry]: the entry's name and what [Info()] returns for it. *)
Record DirEntry : Type := mkDirEntry {
  Name : string;
  Info : result fileStat
}.

(** The state of the file system at the time of a listing, as the two
    calls the program makes see it. *)
Record FS : Type := mkFS {
  Stat : string → result fileStat;
  ReadDir : string → result (list DirEntry)
}.

(** [os.SameFile]: false unless both values are [*fileStat]s, then device
    and inode are compared. *)
Definition SameFile (fi1 fi2 : FileInfo) : bool :=
  match fi1, fi2 with
  | Some fs1, Some fs2 => (Dev fs1 =? Dev fs2) && (Ino fs1 =? Ino fs2)
  | _, _ => false
  end.

(** ** watch.go: the watcher *)

(** [wg] is the WaitGroup counter, the number of scan loops started and
    not yet returned; [closed], [EventsClosed] and [ErrorsClosed] say
    whether [close] was called on the channel. *)
Record Watcher : Type := mkWatcher {
  EventsClosed : bool;
  ErrorsClosed : bool;
  closed : bool;
  names : gset string;
  files : gmap string FileInfo;
  wg : nat;
  running : Z
}.

Definition NewWatcher : Watcher :=
  {| EventsClosed := false; ErrorsClosed := false; closed := false;
     names := ∅; files := ∅; wg := 0; running := 0 |}.

Definition set_running (r : Z) (w : Watcher) : Watcher :=
  {| EventsClosed := EventsClosed w; ErrorsClosed := ErrorsClosed w;
     closed := closed w; names := names w; files := files w; wg := wg w;
     running := r |}.

Definition set_names (n : gset string) (w : Watcher) : Watcher :=
  {| EventsClosed := EventsClosed w; ErrorsClosed := ErrorsClosed w;
     closed := closed w; names := n; files := files w; wg := wg w;
     running := running w |}.

Definition set_files (f : gmap string FileInfo) (w : Watcher) : Watcher :=
  {| EventsClosed := EventsClosed w; ErrorsClosed := ErrorsClosed w;
     closed := closed w; names := names w; files := f; wg := wg w;
     running := running w |}.

Definition set_wg (n : nat) (w : Watcher) : Watcher :=
  {| EventsClosed := EventsClosed w; ErrorsClosed := ErrorsClosed w;
     closed := closed w; names := names w; files := files w; wg := n;
     running := running w |}.

(** [atomic.Int32.CompareAndSwap] on the value [v]: the new value and
    whether the swap happened. *)
Definition CompareAndSwap (v old new : Z) : Z * bool :=
  if v =? old then (new, true) else (v, false).

(** [func (w *Watcher) Start(d time.Duration) error]; [None] is the nil
    error.  The goroutine it launches runs [doWatch], which returns only
    through its [<-w.closed] arm. *)
Definition Start (w : Watcher) : Watcher * option error :=
  let '(r, swapped) := CompareAndSwap (running w) 0 1 in
  if negb swapped then (w, Some ErrWatcherStarted)
  else
    let w := set_running r w in
    if closed w then (w, Some ErrWatcherClosed)
    else (set_wg (S (wg w)) w, None).

(** [func (w *Watcher) Close()].  After [close(w.closed)] every scan loop
    takes its [<-w.closed] arm and returns, so [w.wg.Wait()] comes back
    with the counter at zero. *)
Definition Close (w : Watcher) : Watcher :=
  let '(r, swapped) := CompareAndSwap (running w) 0 1 in
  if negb swapped then w
  else
    {| EventsClosed := true; ErrorsClosed := true; closed := true;
       names := ∅; files := ∅; wg := 0; running := r |}.

(** [select { case <-w.closed: return r; case ch <- msg: }] *)
Definition send {T R} (w : Watcher) (msg : T) (r : R) : chan T R unit :=
  if closed w then raise (Return r) else ([msg], inr tt).

(** The [range] loops over a [map[string]os.FileInfo], by function and,
    where a loop runs more than once in a call, by what it runs for. *)
Inductive rangeSite : Type :=
  | AddFileList                           (* Add: [range fileList] *)
  | RemoveFiles                           (* doRemove: [range w.files] *)
  | ListAllFl (name : string)             (* listForAll: [range fl] *)
  | PollFiles                             (* pollEvents: [range w.files] *)
  | PollCurr                              (* [range currFileList] *)
  | PollRemoved                           (* step 4: [range removed] *)
  | PollCreatedFor (removeFp : string)    (* step 4: [range created] *)
  | PollCreated                           (* step 5: [range created] *)
  | PollRemovedRest.                      (* step 5: [range removed] *)

Section Engine.

(** [filepath.Dir] and [filepath.Join], functions of the path library. *)
Variable Dir : string → string.
Variable Join : string → string → string.

(** The order in which [range] enumerates a map is not specified by the
    language and may differ from one loop to the next, also over the same
    map.  [rangeFiles site m] is the enumeration the run time picks for
    the loop at [site] over the map [m], and [rangeNames s] the one for
    the set of names.  No entry is deleted in this program before the
    loop reaches it, so a loop visits the enumeration taken at its
    start. *)
Variable rangeFiles :
  rangeSite → gmap string FileInfo → list (string * FileInfo).
Variable rangeNames : gset string → list string.

(** [func listForName(name string) (map[string]os.FileInfo, error)] *)
Definition listForName (fs : FS) (name : string)
  : result (gmap string FileInfo) :=
  match Stat fs name with
  | Fail err =>
      Fail (errorString ("name " +:+ name +:+ " with error " +:+ Error err))
  | OK stat =>
      let list : gmap string FileInfo := <[name := Some stat]> ∅ in
      if negb (IsDir stat) then OK list
      else
        match ReadDir fs name with
        | Fail err =>
            Fail (errorString
                    ("directory " +:+ name +:+ " with error " +:+ Error err))
        | OK dirEntries =>
            OK (foldl
                  (λ list dirEntry,
                     let fp := Join name (Name dirEntry) in
                     <[fp := match Info dirEntry with
                             | OK fi => Some fi
                             | Fail _ => None
                             end]> list)
                  list dirEntries)
        end
  end.

(** [func (w *Watcher) doRemove(name string)] *)
Definition doRemove {T R} (w : Watcher) (name : string) : chan T R Watcher :=
  let w := set_names (names w ∖ {[name]}) w in
  match files w !! name with
  | None => mret w
  | Some fi =>
      let w := set_files (delete name (files w)) w in
      isDir ← call IsDir fi;
      if negb isDir then mret w
      else
        mret (foldl
                (λ w kv,
                   if bool_decide (Dir kv.1 = name)
                   then set_files (delete kv.1 (files w)) w
                   else w)
                w (rangeFiles RemoveFiles (files w)))
  end.

(** [func (w *Watcher) Add(name string) error] *)
Definition Add (fs : FS) (w : Watcher) (name : string)
  : Watcher * option error :=
  if closed w then (w, Some ErrWatcherClosed)
  else
    match listForName fs name with
    | Fail err => (w, Some err)
    | OK fileList =>
        let w := set_names ({[name]} ∪ names w) w in
        (foldl (λ w kv, set_files (<[kv.1 := kv.2]> (files w)) w)
               w (rangeFiles AddFileList fileList),
         None)
    end.

(** [func (w *Watcher) Remove(name string) error] *)
Definition Watcher_Remove (w : Watcher) (name : string)
  : chan Empty_set unit (Watcher * option error) :=
  if closed w then mret (w, Some ErrWatcherClosed)
  else w' ← doRemove w name; mret (w', None).

(** [func (w *Watcher) listForAll() map[string]os.FileInfo].  The loop
    state and the result carry the watcher too, which [doRemove] updates;
    [listStep] is the body of the loop over [w.names].  A nil map reads
    as the empty map. *)
Definition listStep (fs : FS) (st : Watcher * gmap string FileInfo)
    (name : string)
  : chan error (Watcher * gmap string FileInfo)
               (Watcher * gmap string FileInfo) :=
  let '(w, fileList) := st in
  match listForName fs name with
  | Fail err =>
      w ← (if IsNotExist err then doRemove w name else mret w);
      send w err (w, ∅);;
      mret (w, fileList)
  | OK fl =>
      mret (w, foldl (λ fileList kv, <[kv.1 := kv.2]> fileList)
                     fileList (rangeFiles (ListAllFl name) fl))
  end.

Definition listForAll (fs : FS) (w : Watcher)
  : chan error (Watcher * gmap string FileInfo)
               (Watcher * gmap string FileInfo) :=
  let fileList : gmap string FileInfo := ∅ in
  forRange (rangeNames (names w)) (listStep fs) (w, fileList).

(** [func (w *Watcher) pollEvents(currFileList map[string]os.FileInfo)] *)
Definition pollEvents (w : Watcher) (currFileList : gmap string FileInfo)
  : chan Event unit unit :=
  let created : gmap string FileInfo := ∅ in
  let removed : gmap string FileInfo := ∅ in
  let removed :=
    foldl (λ removed kv,
             let '(latestFp, latestFi) := kv in
             match currFileList !! latestFp with
             | None => <[latestFp := latestFi]> removed
             | Some _ => removed
             end)
          removed (rangeFiles PollFiles (files w)) in
  created ←
    forRange (rangeFiles PollCurr currFileList)
      (λ created kv,
         let '(fp, currFi) := kv in
         match files w !! fp with
         | None => mret (<[fp := currFi]> created)
         | Some latestFi =>
             let ev := mkEvent currFi fp Modify in
             t1 ← call ModTime latestFi;
             t2 ← call ModTime currFi;
             if negb (t1 =? t2) then send w ev tt;; mret created
             else
               s1 ← call Size latestFi;
               s2 ← call Size currFi;
               if negb (s1 =? s2) then send w ev tt;; mret created
               else mret created
         end)
      created;
  rc ←
    forRange (rangeFiles PollRemoved removed)
      (λ rc kv,
         let '(removeFp, removeFi) := kv in
         forRange (rangeFiles (PollCreatedFor removeFp) rc.2)
           (λ rc kv',
              let '(createFp, createFi) := kv' in
              if SameFile removeFi createFi then
                let ev := mkEvent removeFi removeFp Move in
                let ev :=
                  if bool_decide (Dir removeFp = Dir createFp)
                  then mkEvent (e_FileInfo ev) (e_Path ev) Rename
                  else ev in
                let rc := (delete removeFp rc.1, delete createFp rc.2) in
                send w ev tt;; mret rc
              else mret rc)
           rc)
      (removed, created);
  forRange (rangeFiles PollCreated rc.2)
    (λ _ kv, send w (mkEvent kv.2 kv.1 Create) tt) tt;;
  forRange (rangeFiles PollRemovedRest rc.1)
    (λ _ kv, send w (mkEvent kv.2 kv.1 Remove) tt) tt.

(** One firing of the ticker in [func (w *Watcher) doWatch]: the errors
    and events sent, and the watcher afterwards ([None] after a panic). *)
Definition tick (fs : FS) (w : Watcher)
  : list error * list Event * option Watcher :=
  match listForAll fs w with
  | (errs, inl NilDeref) => (errs, [], None)
  | (errs, inl (Return (w, currFileList)))
  | (errs, inr (w, currFileList)) =>
      match pollEvents w currFileList with
      | (evs, inl NilDeref) => (errs, evs, None)
      | (evs, _) => (errs, evs, Some (set_files currFileList w))
      end
  end.

(** The bodies of the loops of [pollEvents], in the order of the source
    ([pollEvents_loops] below). *)
Definition removedStep (currFileList : gmap string FileInfo)
    (removed : gmap string FileInfo) (kv : string * FileInfo)
  : gmap string FileInfo :=
  let '(latestFp, latestFi) := kv in
  match currFileList !! latestFp with
  | None => <[latestFp := latestFi]> removed
  | Some _ => removed
  end.

Definition modifyStep (w : Watcher) (created : gmap string FileInfo)
    (kv : string * FileInfo) : chan Event unit (gmap string FileInfo) :=
  let '(fp, currFi) := kv in
  match files w !! fp with
  | None => mret (<[fp := currFi]> created)
  | Some latestFi =>
      let ev := mkEvent currFi fp Modify in
      t1 ← call ModTime latestFi;
      t2 ← call ModTime currFi;
      if negb (t1 =? t2) then send w ev tt;; mret created
      else
        s1 ← call Size latestFi;
        s2 ← call Size currFi;
        if negb (s1 =? s2) then send w ev tt;; mret created
        else mret created
  end.

Definition pairStep (w : Watcher) (removeFp : string) (removeFi : FileInfo)
    (rc : gmap string FileInfo * gmap string FileInfo)
    (kv' : string * FileInfo)
  : chan Event unit (gmap string FileInfo * gmap string FileInfo) :=
  let '(createFp, createFi) := kv' in
  if SameFile removeFi createFi then
    let ev := mkEvent removeFi removeFp Move in
    let ev :=
      if bool_decide (Dir removeFp = Dir createFp)
      then mkEvent (e_FileInfo ev) (e_Path ev) Rename
      else ev in
    let rc := (delete removeFp rc.1, delete createFp rc.2) in
    send w ev tt;; mret rc
  else mret rc.

Definition coalesceStep (w : Watcher)
    (rc : gmap string FileInfo * gmap string FileInfo)
    (kv : string * FileInfo)
  : chan Event unit (gmap string FileInfo * gmap string FileInfo) :=
  let '(removeFp, removeFi) := kv in
  forRange (rangeFiles (PollCreatedFor removeFp) rc.2)
           (pairStep w removeFp removeFi) rc.

(** *** The diff in closed form

    The working sets and the event lists of [pollEvents], written as
    functions of the two snapshots; [pollEvents_diffEvents] below proves
    that the loops compute them. *)
Definition removedSet (files curr : gmap string FileInfo)
  : gmap string FileInfo :=
  filter (λ kv, curr !! kv.1 = None) files.

Definition createdSet (files curr : gmap string FileInfo)
  : gmap string FileInfo :=
  filter (λ kv, files !! kv.1 = None) curr.

(** The test of step 3 on two metadata values that are both present. *)
Definition changed (latestFi currFi : FileInfo) : bool :=
  match latestFi, currFi with
  | Some l, Some c =>
      negb (ModTime l =? ModTime c) || negb (Size l =? Size c)
  | _, _ => false
  end.

Definition modifyEvents (files : gmap string FileInfo)
    (l : list (string * FileInfo)) : list Event :=
  omap (λ kv, match files !! kv.1 with
              | Some latestFi =>
                  if changed latestFi kv.2
                  then Some (mkEvent kv.2 kv.1 Modify) else None
              | None => None
              end) l.

Definition renameOrMove (removeFp : string) (removeFi : FileInfo)
    (createFp : string) : Event :=
  mkEvent removeFi removeFp
          (if bool_decide (Dir removeFp = Dir createFp) then Rename else Move).

(** One run of the inner loop of step 4 for the removed entry
    [(removeFp, removeFi)] over the enumeration [cs] of [created]. *)
Definition innerEvents (removeFp : string) (removeFi : FileInfo)
    (cs : list (string * FileInfo)) : list Event :=
  map (λ kv, renameOrMove removeFp removeFi kv.1)
      (filter (λ kv, SameFile removeFi kv.2 = true) cs).

Definition innerState (removeFp : string) (removeFi : FileInfo)
    (rc : gmap string FileInfo * gmap string FileInfo)
    (cs : list (string * FileInfo))
  : gmap string FileInfo * gmap string FileInfo :=
  foldl (λ rc kv, if SameFile removeFi kv.2
                  then (delete removeFp rc.1, delete kv.1 rc.2) else rc)
        rc cs.

(** The outer loop of step 4 over the enumeration [l] of [removed]. *)
Definition outerState (rc : gmap string FileInfo * gmap string FileInfo)
    (l : list (string * FileInfo))
  : gmap string FileInfo * gmap string FileInfo :=
  foldl (λ rc kv,
           innerState kv.1 kv.2 rc (rangeFiles (PollCreatedFor kv.1) rc.2))
        rc l.

Fixpoint outerEvents (rc : gmap string FileInfo * gmap string FileInfo)
    (l : list (string * FileInfo)) : list Event :=
  match l with
  | [] => []
  | kv :: l' =>
      let cs := rangeFiles (PollCreatedFor kv.1) rc.2 in
      innerEvents kv.1 kv.2 cs
      ++ outerEvents (innerState kv.1 kv.2 rc cs) l'
  end.

Definition createEvents (l : list (string * FileInfo)) : list Event :=
  map (λ kv, mkEvent kv.2 kv.1 Create) l.

Definition removeEvents (l : list (string * FileInfo)) : list Event :=
  map (λ kv, mkEvent kv.2 kv.1 Remove) l.

Definition diffEvents (files curr : gmap string FileInfo) : list Event :=
  let rc0 := (removedSet files curr, createdSet files curr) in
  let l := rangeFiles PollRemoved (removedSet files curr) in
  modifyEvents files (rangeFiles PollCurr curr)
  ++ outerEvents rc0 l
  ++ createEvents (rangeFiles PollCreated (outerState rc0 l).2)
  ++ removeEvents (rangeFiles PollRemovedRest (outerState rc0 l).1).

(** Every path that both snapshots hold has its metadata in both. *)
Definition statted (files curr : gmap string FileInfo) : Prop :=
  ∀ fp latestFi currFi,
    files !! fp = Some latestFi → curr !! fp = Some currFi →
    is_Some latestFi ∧ is_Some currFi.

(** *** Replaying events onto a snapshot

    The replay of the specification's round-trip property, in its words:
    Create adds an entry, Remove deletes one, Modify updates metadata.
    A Rename or Move event records the path the entry left and not the
    path it went to; [relocate] stands for whatever a replayer does
    with it. *)
Definition replayStep
    (relocate : Event → gmap string FileInfo → gmap string FileInfo)
    (S : gmap string FileInfo) (ev : Event) : gmap string FileInfo :=
  if e_Op ev =? Create then <[e_Path ev := e_FileInfo ev]> S
  else if e_Op ev =? Remove then delete (e_Path ev) S
  else if e_Op ev =? Modify then <[e_Path ev := e_FileInfo ev]> S
  else relocate ev S.

Definition replay
    (relocate : Event → gmap string FileInfo → gmap string FileInfo)
    (S : gmap string FileInfo) (evs : list Event) : gmap string FileInfo :=
  foldl (replayStep relocate) S evs.

End Engine.

(** ** Sample data

    [parentDir] and [joinPath] compute [filepath.Dir] and [filepath.Join]
    on slash-separated paths that are already clean (no empty, [.] or [..]
    component, no trailing slash), which is what every path below is. *)

Definition slash : Ascii.ascii := Ascii.ascii_of_nat 47.

Fixpoint dropUntilSlash (cs : list Ascii.ascii) : list Ascii.ascii :=
  match cs with
  | [] => []
  | c :: cs' => if Ascii.eqb c slash then cs else dropUntilSlash cs'
  end.

Fixpoint dropSlashes (cs : list Ascii.ascii) : list Ascii.ascii :=
  match cs with
  | [] => []
  | c :: cs' => if Ascii.eqb c slash then dropSlashes cs' else cs
  end.

Definition parentDir (path : string) : string :=
  let upToSlash := dropUntilSlash (rev (String.list_ascii_of_string path)) in
  match upToSlash, dropSlashes upToSlash with
  | [], _ => "."
  | _ :: _, [] => "/"
  | _ :: _, dir => String.string_of_list_ascii (rev dir)
  end.

Definition joinPath (dir name : string) : string := dir +:+ "/" +:+ name.

(** Three choices of enumeration orders for [range]: the same order in
    every loop, the opposite one in every loop, and one that alternates
    between the loops. *)
Definition ascending (site : rangeSite) (m : gmap string FileInfo)
  : list (string * FileInfo) :=
  map_to_list m.
Definition descending (site : rangeSite) (m : gmap string FileInfo)
  : list (string * FileInfo) :=
  reverse (map_to_list m).
Definition alternating (site : rangeSite) (m : gmap string FileInfo)
  : list (string * FileInfo) :=
  match site with
  | PollCurr | PollCreatedFor _ | PollRemovedRest | ListAllFl _ =>
      reverse (map_to_list m)
  | _ => map_to_list m
  end.

Definition regular (ino : Z) (mtime size : Z) : FileInfo :=
  Some (mkStat mtime size false 1 ino).
Definition directory (ino : Z) (mtime : Z) : FileInfo :=
  Some (mkStat mtime 4096 true 1 ino).

Definition watching (targets : list string) (snapshot : gmap string FileInfo)
  : Watcher :=
  set_files snapshot (set_names (list_to_set targets) NewWatcher).

(** ** Properties stated below *)

(** Exactly one flag of the vocabulary is set, it is one of the five the
    diff engine uses, and the Chmod bit is clear. *)
Definition singleKind (ev : Event) : Prop :=
  e_Op ev ∈ [Create; Remove; Modify; Rename; Move]
  ∧ flagsOf (e_Op ev) = [e_Op ev]
  ∧ Z.land (e_Op ev) Chmod = 0
  ∧ HasOps (Some ev) [Chmod] = false.

Definition inPhases (evs : list Event) : Prop :=
  ∃ modified coalesced created removed,
    evs = modified ++ coalesced ++ created ++ removed
    ∧ Forall (λ ev, e_Op ev = Modify) modified
    ∧ Forall (λ ev, e_Op ev = Rename ∨ e_Op ev = Move) coalesced
    ∧ Forall (λ ev, e_Op ev = Create) created
    ∧ Forall (λ ev, e_Op ev = Remove) removed.

(** An event that a replayer handles by itself. *)
Definition plain (ev : Event) : Prop :=
  e_Op ev = Create ∨ e_Op ev = Remove ∨ e_Op ev = Modify.

(** The three states a watcher is in after any calls to [Start] and
    [Close]. *)
Definition idle (w : Watcher) : Prop :=
  running w = 0 ∧ wg w = 0%nat ∧ closed w = false
  ∧ EventsClosed w = false ∧ ErrorsClosed w = false.

Definition scanning (w : Watcher) : Prop :=
  running w = 1 ∧ wg w = 1%nat ∧ closed w = false
  ∧ EventsClosed w = false ∧ ErrorsClosed w = false.

Definition shut (w : Watcher) : Prop :=
  running w = 1 ∧ wg w = 0%nat ∧ closed w = true
  ∧ EventsClosed w = true ∧ ErrorsClosed w = true.

Inductive lifecycleCall : Type := CallStart | CallClose.

Definition lifecycleStep (w : Watcher) (c : lifecycleCall) : Watcher :=
  match c with
  | CallStart => (Start w).1
  | CallClose => Close w
  end.

(** A property of the two metadata values of every path that both
    snapshots hold; it is decidable when the property is. *)
Definition bothForall (P : string → FileInfo → FileInfo → Prop)
    (files curr : gmap string FileInfo) : Prop :=
  ∀ fp latestFi currFi,
    files !! fp = Some latestFi → curr !! fp = Some currFi →
    P fp latestFi currFi.

#[global] Instance bothForall_dec (P : string → FileInfo → FileInfo → Prop)
    `{∀ fp a b, Decision (P fp a b)} files curr :
  Decision (bothForall P files curr).
Proof.
  refine (cast_if (decide (map_Forall (λ fp ab, P fp ab.1 ab.2)
                                      (map_zip files curr)))).
  - intros fp a b Hf Hc. apply (m fp (a, b)).
    by apply map_lookup_zip_Some.
  - intros H'. apply n. intros fp [a b] Hab.
    apply map_lookup_zip_Some in Hab as [Hf Hc]. by apply H'.
Defined.

#[global] Instance statted_dec files curr : Decision (statted files curr) :=
  bothForall_dec (λ _ a b, is_Some a ∧ is_Some b) files curr.

Section Claims.
Variable Dir : string → string.
Variable rangeFiles :
  rangeSite → gmap string FileInfo → list (string * FileInfo).

(** The coalescing rule read for every pair: whenever a removed and a
    created path hold the same file, one event is located at the removed
    path, Rename or Move by the parent directories, and none at the
    created path. *)
Definition coalescesEveryPair (w : Watcher)
    (curr : gmap string FileInfo) : Prop :=
  ∀ removeFp removeFi createFp createFi,
    files w !! removeFp = Some removeFi → curr !! removeFp = None →
    curr !! createFp = Some createFi → files w !! createFp = None →
    SameFile removeFi createFi = true →
    filter (λ ev, e_Path ev = removeFp)
           (sent (pollEvents Dir rangeFiles w curr))
    = [mkEvent removeFi removeFp
         (if bool_decide (Dir removeFp = Dir createFp) then Rename else Move)]
    ∧ Forall (λ ev, e_Path ev ≠ createFp)
             (sent (pollEvents Dir rangeFiles w curr)).

(** Replaying the events of a cycle with [replayer] onto the previous
    snapshot gives the current one. *)
Definition roundTrips
    (replayer : gmap string FileInfo → list Event → gmap string FileInfo)
    (w : Watcher) (curr : gmap string FileInfo) : Prop :=
  replayer (files w) (sent (pollEvents Dir rangeFiles w curr)) = curr.
End Claims.

(** ** Sample snapshots of the watched directory [/d]

    [snapA]: the directory holds [a].  [snapB], [snapC]: [a] was renamed
    to [b], to [c].  [snapBC]: [a] was renamed to [b] and [b] hard-linked
    as [c].  [snapA12]: two hard links [a1] and [a2] of one file; from
    there [snapB] is reached by renaming [a1] to [b] and deleting [a2].
    [snapP], [snapQ]: [a] was rewritten, [x] deleted and [n] created.
    [snapE], [snapF]: with a second watched directory [/e], [a] was moved
    from [/d] to [/e]. *)
Definition snapA : gmap string FileInfo :=
  <["/d" := directory 2 100]> (<["/d/a" := regular 5 100 10]> ∅).
Definition snapB : gmap string FileInfo :=
  <["/d" := directory 2 200]> (<["/d/b" := regular 5 100 10]> ∅).
Definition snapC : gmap string FileInfo :=
  <["/d" := directory 2 200]> (<["/d/c" := regular 5 100 10]> ∅).
Definition snapBC : gmap string FileInfo :=
  <["/d" := directory 2 200]>
    (<["/d/b" := regular 5 100 10]> (<["/d/c" := regular 5 100 10]> ∅)).
Definition snapA12 : gmap string FileInfo :=
  <["/d" := directory 2 100]>
    (<["/d/a1" := regular 5 100 10]> (<["/d/a2" := regular 5 100 10]> ∅)).
Definition snapP : gmap string FileInfo :=
  <["/d" := directory 2 100]>
    (<["/d/a" := regular 5 100 10]> (<["/d/x" := regular 7 100 30]> ∅)).
Definition snapQ : gmap string FileInfo :=
  <["/d" := directory 2 200]>
    (<["/d/a" := regular 5 150 12]> (<["/d/n" := regular 9 200 0]> ∅)).
Definition snapE : gmap string FileInfo :=
  <["/d" := directory 2 100]>
    (<["/e" := directory 3 100]> (<["/d/a" := regular 5 100 10]> ∅)).
Definition snapF : gmap string FileInfo :=
  <["/d" := directory 2 200]>
    (<["/e" := directory 3 200]> (<["/e/a" := regular 5 100 10]> ∅)).

(** A file system on which nothing exists any more. *)
Definition fsGone : FS :=
  {| Stat := λ name, Fail (PathError "stat" name ENOENT);
     ReadDir := λ name, Fail (PathError "open" name ENOENT) |}.

(** A file system with the directory [/d] holding [x] and [y], where [x]
    is deleted after [ReadDir] returned it and before its [Info] call. *)
Definition fsRace : FS :=
  {| Stat := λ name,
       if bool_decide (name = "/d") then OK (mkStat 100 4096 true 1 2)
       else Fail (PathError "stat" name ENOENT);
     ReadDir := λ name,
       if bool_decide (name = "/d")
       then OK [mkDirEntry "x" (Fail (PathError "lstat" "/d/x" ENOENT));
                mkDirEntry "y" (OK (mkStat 100 10 false 1 6))]
       else Fail (PathError "open" name ENOENT) |}.

(** ** Further definitions for the properties of the other functions *)

(** The names [Op.String] writes, in its order. *)
Definition opNames : list (Op * string) :=
  [(Create, "CREATE"); (Remove, "REMOVE"); (Modify, "MODIFY");
   (Rename, "RENAME"); (Chmod, "CHMOD"); (Move, "MOVE")].

Definition setNames (op : Op) : list string :=
  flat_map (λ p, if Z.land op p.1 =? p.1 then [p.2] else []) opNames.

Section Merging.
Variable Join : string → string → string.

(** The errors and the merged listing of [listForAll] over the
    enumeration [l] of the targets, when no shutdown interrupts it. *)
Definition listErrors (fs : FS) (l : list string) : list error :=
  omap (λ name, match listForName Join fs name with
                | Fail err => Some err
                | OK _ => None
                end) l.

Definition mergeListings (fs : FS) (l : list string)
  : gmap string FileInfo :=
  foldl (λ fileList name, match listForName Join fs name with
                          | OK fl => fl ∪ fileList
                          | Fail _ => fileList
                          end) ∅ l.
End Merging.

(** The part of the watcher that [Start] and [Close] work on. *)
Definition lifecycleOf (w : Watcher) : Z * nat * bool * bool * bool :=
  (running w, wg w, closed w, EventsClosed w, ErrorsClosed w).

(** The calls a program makes on one watcher, and the ticker firing. *)
Inductive apiCall : Type :=
  | ApiStart
  | ApiClose
  | ApiAdd (fs : FS) (name : string)
  | ApiRemove (name : string)
  | ApiTick (fs : FS).

Section Api.
Variable Dir : string → string.
Variable Join : string → string → string.
Variable rangeFiles :
  rangeSite → gmap string FileInfo → list (string * FileInfo).
Variable rangeNames : gset string → list string.

(** The watcher after one call; [None] when the call panics.  The
    ticker fires only while a scan loop is live. *)
Definition apiStep (w : Watcher) (c : apiCall) : option Watcher :=
  match c with
  | ApiStart => Some (Start w).1
  | ApiClose => Some (Close w)
  | ApiAdd fs name => Some (Add Join rangeFiles fs w name).1
  | ApiRemove name =>
      match Watcher_Remove Dir rangeFiles w name with
      | (_, inr (w', _)) => Some w'
      | (_, inl _) => None
      end
  | ApiTick fs =>
      if bool_decide (wg w = 0%nat) then Some w
      else (tick Dir Join rangeFiles rangeNames fs w).2
  end.

Definition apiRun (w : Watcher) (calls : list apiCall) : option Watcher :=
  foldl (λ ow c, ow ≫= λ w, apiStep w c) (Some w) calls.
End Api.

(** A file system with the directory [/d] holding the file [y]. *)
Definition fsQuiet : FS :=
  {| Stat := λ name,
       if bool_decide (name = "/d") then OK (mkStat 100 4096 true 1 2)
       else if bool_decide (name = "/d/y") then OK (mkStat 100 10 false 1 6)
       else Fail (PathError "stat" name ENOENT);
     ReadDir := λ name,
       if bool_decide (name = "/d")
       then OK [mkDirEntry "y" (OK (mkStat 100 10 false 1 6))]
       else Fail (PathError "open" name ENOENT) |}.

(** The listing of [/d] on [fsQuiet], and a snapshot outside [/d]. *)
Definition listQuiet : gmap string FileInfo :=
  <["/d" := directory 2 100]> (<["/d/y" := regular 6 100 10]> ∅).
Definition snapOther : gmap string FileInfo :=
  <["/e" := regular 3 100 5]> ∅.

(** ** Sending blocks *)

Section Blocks.
Context {T R : Type}.

Lemma sent_bind {A B} (m : chan T R A) (k : A → chan T R B) :
  sent (m ≫= k)
  = sent m ++ match ending m with inl _ => [] | inr a => sent (k a) end.
Proof.
  destruct m as [out [e|a]]; simpl.
  - by rewrite app_nil_r.
  - unfold sent. by destruct (k a).
Qed.

Lemma ending_bind {A B} (m : chan T R A) (k : A → chan T R B) :
  ending (m ≫= k)
  = match ending m with inl e => inl e | inr a => ending (k a) end.
Proof.
  destruct m as [out [e|a]]; simpl; [done|]. unfold ending. by destruct (k a).
Qed.

Lemma bind_done {A B} (m : chan T R A) (k : A → chan T R B) out a out' r :
  m = (out, inr a) → k a = (out', r) → m ≫= k = (out ++ out', r).
Proof. intros -> Hk. simpl. by rewrite Hk. Qed.

Lemma chan_eta {A} (m : chan T R A) : m = (sent m, ending m).
Proof. by destruct m. Qed.

Lemma send_open (w : Watcher) (msg : T) (r : R) :
  closed w = false → send w msg r = ([msg], inr tt).
Proof. unfold send. by intros ->. Qed.

Lemma sent_send (P : T → Prop) (w : Watcher) (msg : T) (r : R) :
  P msg → Forall P (sent (send w msg r)).
Proof. unfold send. destruct (closed w); simpl; auto. Qed.

Lemma Forall_sent_bind {A B} (P : T → Prop) (m : chan T R A)
    (k : A → chan T R B) :
  Forall P (sent m) → (∀ a, Forall P (sent (k a))) →
  Forall P (sent (m ≫= k)).
Proof.
  intros Hm Hk. rewrite sent_bind. apply Forall_app. split; [done|].
  destruct (ending m); auto.
Qed.

Lemma Forall_sent_forRange {X S} (P : T → Prop) (l : list X)
    (body : S → X → chan T R S) (s : S) :
  (∀ s x, x ∈ l → Forall P (sent (body s x))) →
  Forall P (sent (forRange l body s)).
Proof.
  revert s. induction l as [|x l IH]; intros s Hbody; simpl.
  - constructor.
  - apply Forall_sent_bind.
    + apply Hbody. left.
    + intros s'. apply IH. intros s'' y Hy. apply Hbody. by right.
Qed.

Lemma sent_call {A} (P : T → Prop) (f : fileStat → A) fi :
  Forall P (sent (call (T:=T) (R:=R) f fi)).
Proof. destruct fi; simpl; constructor. Qed.

Lemma sent_mret {A} (P : T → Prop) (a : A) :
  Forall P (sent (mret (M:=chan T R) a)).
Proof. constructor. Qed.

End Blocks.

(** ** Kinds and order of the events of one cycle *)

(** Walks through a block and leaves one goal per message sent. *)
Ltac each_send :=
  repeat first
    [ apply sent_mret
    | apply sent_call
    | apply sent_send
    | apply Forall_sent_bind
    | apply Forall_sent_forRange; intros ? [? ?] ?; cbv beta iota zeta
    | match goal with
      | |- Forall _ (sent (match ?x with _ => _ end)) => destruct x
      | |- Forall _ (sent (if ?b then _ else _)) => destruct b
      end
    | intros ? ].

Section Phases.
Variable Dir : string → string.
Variable rangeFiles :
  rangeSite → gmap string FileInfo → list (string * FileInfo).
Variable w : Watcher.

Lemma pollEvents_inPhases curr :
  inPhases (sent (pollEvents Dir rangeFiles w curr)).
Proof.
  unfold pollEvents, inPhases.
  rewrite sent_bind.
  match goal with |- context [sent ?m ++ _] =>
    exists (sent m);
    assert (Forall (λ ev, e_Op ev = Modify) (sent m)) as H1 by (each_send; done)
  end.
  match goal with |- context [ending ?m] => destruct (ending m) as [e|created] end.
  { exists [], [], []. repeat split; auto; constructor. }
  rewrite sent_bind.
  match goal with |- context [sent ?m ++ _] =>
    exists (sent m);
    assert (Forall (λ ev, e_Op ev = Rename ∨ e_Op ev = Move) (sent m)) as H2
      by (each_send; case_bool_decide; simpl; auto)
  end.
  match goal with |- context [ending ?m] => destruct (ending m) as [e|rc] end.
  { exists [], []. repeat split; auto; constructor. }
  rewrite sent_bind.
  match goal with |- context [sent ?m ++ _] =>
    exists (sent m);
    assert (Forall (λ ev, e_Op ev = Create) (sent m)) as H3 by (each_send; done)
  end.
  match goal with |- context [ending ?m] => destruct (ending m) as [e|[]] end.
  { exists []. repeat split; auto; constructor. }
  eexists. repeat split; auto. each_send; done.
Qed.

Lemma pollEvents_ops curr :
  Forall (λ ev, e_Op ev ∈ [Create; Remove; Modify; Rename; Move])
         (sent (pollEvents Dir rangeFiles w curr)).
Proof.
  destruct (pollEvents_inPhases curr) as (l1 & l2 & l3 & l4 & -> & H1 & H2 & H3 & H4).
  rewrite !Forall_app. repeat split.
  - eapply Forall_impl; [exact H1|]. intros ev ->. set_solver.
  - eapply Forall_impl; [exact H2|]. intros ev [-> | ->]; set_solver.
  - eapply Forall_impl; [exact H3|]. intros ev ->. set_solver.
  - eapply Forall_impl; [exact H4|]. intros ev ->. set_solver.
Qed.
End Phases.

Lemma singleKind_of_op ev :
  e_Op ev ∈ [Create; Remove; Modify; Rename; Move] → singleKind ev.
Proof.
  intros Hin. split; [done|]. unfold HasOps.
  repeat (apply elem_of_cons in Hin as [-> | Hin]); try (by vm_compute).
  by apply elem_of_nil in Hin.
Qed.

(** ** The loops of [pollEvents] compute the closed form *)

Section Diff.
Variable Dir : string → string.
Variable rangeFiles :
  rangeSite → gmap string FileInfo → list (string * FileInfo).
Hypothesis rangeFiles_perm : ∀ site m, rangeFiles site m ≡ₚ map_to_list m.

Lemma pollEvents_loops w currFileList :
  pollEvents Dir rangeFiles w currFileList
  = (let removed :=
       foldl (removedStep currFileList) ∅ (rangeFiles PollFiles (files w)) in
     created ← forRange (rangeFiles PollCurr currFileList) (modifyStep w) ∅;
     rc ← forRange (rangeFiles PollRemoved removed)
                   (coalesceStep Dir rangeFiles w)
                   (removed, created);
     forRange (rangeFiles PollCreated rc.2)
       (λ _ kv, send w (mkEvent kv.2 kv.1 Create) tt) tt;;
     forRange (rangeFiles PollRemovedRest rc.1)
       (λ _ kv, send w (mkEvent kv.2 kv.1 Remove) tt) tt).
Proof. reflexivity. Qed.

Lemma range_NoDup site m : NoDup (rangeFiles site m).*1.
Proof. rewrite rangeFiles_perm. apply NoDup_fst_map_to_list. Qed.

Lemma range_elem site m k v :
  (k, v) ∈ rangeFiles site m ↔ m !! k = Some v.
Proof. rewrite rangeFiles_perm. apply elem_of_map_to_list. Qed.

(** Steps 1 and 2: the entries of one snapshot whose path the other
    lacks. *)
Lemma removedStep_foldl other l (m0 : gmap string FileInfo) p v :
  NoDup l.*1 → (∀ k v', (k, v') ∈ l → m0 !! k = None) →
  foldl (removedStep other) m0 l !! p = Some v
  ↔ m0 !! p = Some v ∨ ((p, v) ∈ l ∧ other !! p = None).
Proof.
  revert m0. induction l as [|[k x] l IH]; intros m0 Hnd Hfresh; simpl.
  - split; [auto|]. intros [?|[H _]]; [done|]. by apply elem_of_nil in H.
  - apply NoDup_cons in Hnd as [Hk Hnd]. simpl in Hk.
    assert (m0 !! k = None) as Hm0k by (eapply Hfresh; left).
    rewrite IH; [|done|].
    + destruct (other !! k) as [y|] eqn:Hother.
      * split; intros [?|[Hin ?]]; auto.
        -- right. split; [by right|done].
        -- apply elem_of_cons in Hin as [[= -> ->]|Hin]; [congruence|auto].
      * destruct (decide (p = k)) as [->|Hne].
        -- rewrite lookup_insert_eq, Hm0k. split.
           ++ intros [[= ->]|[Hin ?]]; right; split; auto; [left|by right].
           ++ intros [?|[Hin ?]]; [done|].
              apply elem_of_cons in Hin as [[= ->]|Hin]; [by left|].
              exfalso. apply Hk. apply list_elem_of_fmap. by exists (k, v).
        -- rewrite lookup_insert_ne by done. split.
           ++ intros [?|[Hin ?]]; auto. right. split; [by right|done].
           ++ intros [?|[Hin ?]]; auto.
              apply elem_of_cons in Hin as [[= -> ->]|Hin]; [done|auto].
    + intros k' v' Hin. destruct (other !! k).
      * eapply Hfresh. by right.
      * rewrite lookup_insert_ne; [eapply Hfresh; by right|].
        intros ->. apply Hk. apply list_elem_of_fmap. by exists (k', v').
Qed.

Lemma removedStep_range site files curr :
  foldl (removedStep curr) ∅ (rangeFiles site files)
  = removedSet files curr.
Proof.
  apply map_eq. intros p. apply option_eq. intros v.
  rewrite removedStep_foldl; [|apply range_NoDup|by intros].
  unfold removedSet. rewrite map_lookup_filter_Some, range_elem, lookup_empty.
  simpl. split; [intros [?|[? ?]]; [done|auto]|intros [? ?]; auto].
Qed.

Local Arguments modifyStep : simpl never.
Local Arguments pairStep : simpl never.
Local Arguments coalesceStep : simpl never.

(** Step 3, for snapshots whose common paths have their metadata. *)
Lemma modifyStep_foldl w l (created : gmap string FileInfo) :
  closed w = false →
  (∀ k v latestFi, (k, v) ∈ l → files w !! k = Some latestFi →
                   is_Some latestFi ∧ is_Some v) →
  forRange l (modifyStep w) created
  = (modifyEvents (files w) l, inr (foldl (removedStep (files w)) created l)).
Proof.
  intros Hopen. revert created.
  induction l as [|[k v] l IH]; intros created Hst; [done|].
  assert (forRange l (modifyStep w) (removedStep (files w) created (k, v))
          = (modifyEvents (files w) l,
             inr (foldl (removedStep (files w))
                        (removedStep (files w) created (k, v)) l))) as IH'.
  { apply IH. intros k' v' latestFi Hin. apply Hst. by right. }
  change (forRange ((k, v) :: l) (modifyStep w) created)
    with (modifyStep w created (k, v) ≫= forRange l (modifyStep w)).
  unfold modifyEvents. simpl omap. simpl foldl. fold (modifyEvents (files w) l).
  set (rest := forRange l (modifyStep w)) in *.
  unfold modifyStep. cbv beta iota. simpl removedStep in *.
  destruct (files w !! k) as [latestFi|] eqn:Hk.
  - destruct (Hst k v latestFi) as [[st1 ->] [st2 ->]]; [left|done|].
    simpl. unfold send. rewrite Hopen.
    destruct (ModTime st1 =? ModTime st2); simpl;
      [destruct (Size st1 =? Size st2); simpl|]; by rewrite IH'.
  - simpl. by rewrite IH'.
Qed.

(** Step 4, inner and outer loop. *)
Lemma pairStep_foldl w removeFp removeFi cs rc :
  closed w = false →
  forRange cs (pairStep Dir w removeFp removeFi) rc
  = (innerEvents Dir removeFp removeFi cs,
     inr (innerState removeFp removeFi rc cs)).
Proof.
  intros Hopen. revert rc. induction cs as [|[k v] cs IH]; intros rc; [done|].
  change (forRange ((k, v) :: cs) (pairStep Dir w removeFp removeFi) rc)
    with (pairStep Dir w removeFp removeFi rc (k, v)
          ≫= forRange cs (pairStep Dir w removeFp removeFi)).
  set (rest := forRange cs (pairStep Dir w removeFp removeFi)) in *.
  unfold innerEvents, innerState, pairStep. cbv beta iota. simpl foldl.
  fold (innerState removeFp removeFi).
  destruct (SameFile removeFi v) eqn:Hsame.
  - rewrite filter_cons_True by done. cbv zeta. unfold send. rewrite Hopen.
    simpl. subst rest. rewrite IH. unfold innerEvents, renameOrMove.
    by case_bool_decide.
  - rewrite filter_cons_False by (simpl; congruence).
    simpl. subst rest. by rewrite IH.
Qed.

Lemma coalesceStep_foldl w l rc :
  closed w = false →
  forRange l (coalesceStep Dir rangeFiles w) rc
  = (outerEvents Dir rangeFiles rc l, inr (outerState rangeFiles rc l)).
Proof.
  intros Hopen. revert rc. induction l as [|[k v] l IH]; intros rc; [done|].
  change (forRange ((k, v) :: l) (coalesceStep Dir rangeFiles w) rc)
    with (forRange (rangeFiles (PollCreatedFor k) rc.2) (pairStep Dir w k v) rc
          ≫= forRange l (coalesceStep Dir rangeFiles w)).
  rewrite pairStep_foldl by done. simpl. by rewrite IH.
Qed.

(** Step 5. *)
Lemma send_foldl w (mk : string * FileInfo → Event) l :
  closed w = false →
  forRange l (λ _ kv, send (R:=unit) w (mk kv) tt) tt = (map mk l, inr tt).
Proof.
  intros Hopen. induction l as [|kv l IH]; [done|].
  change (forRange (kv :: l) (λ _ kv, send (R:=unit) w (mk kv) tt) tt)
    with (send (R:=unit) w (mk kv) tt
          ≫= forRange l (λ _ kv, send (R:=unit) w (mk kv) tt)).
  by erewrite bind_done; [|by apply send_open|apply IH].
Qed.

(** A cycle that no shutdown interrupts, on snapshots whose common
    paths have their metadata, runs to its end and sends the events of
    the closed form. *)
Theorem pollEvents_diffEvents w curr :
  closed w = false → statted (files w) curr →
  pollEvents Dir rangeFiles w curr
  = (diffEvents Dir rangeFiles (files w) curr, inr tt).
Proof.
  intros Hopen Hst. rewrite pollEvents_loops. cbv zeta.
  rewrite removedStep_range.
  rewrite modifyStep_foldl; [|done|].
  2:{ intros k v latestFi Hin Hk. apply range_elem in Hin. eauto. }
  rewrite removedStep_range.
  simpl. rewrite coalesceStep_foldl by done. simpl.
  rewrite (send_foldl w (λ kv, mkEvent kv.2 kv.1 Create)) by done.
  simpl. rewrite (send_foldl w (λ kv, mkEvent kv.2 kv.1 Remove)) by done.
  unfold diffEvents, createEvents, removeEvents. simpl.
  reflexivity.
Qed.

(** *** The working sets only shrink during step 4 *)

Lemma innerState_cons removeFp removeFi k x cs rc :
  innerState removeFp removeFi rc ((k, x) :: cs)
  = innerState removeFp removeFi
      (if SameFile removeFi x then (delete removeFp rc.1, delete k rc.2)
       else rc) cs.
Proof. reflexivity. Qed.

Lemma outerState_cons k x l rc :
  outerState rangeFiles rc ((k, x) :: l)
  = outerState rangeFiles
      (innerState k x rc (rangeFiles (PollCreatedFor k) rc.2)) l.
Proof. reflexivity. Qed.

Lemma innerState_sub removeFp removeFi cs rc p v :
  ((innerState removeFp removeFi rc cs).1 !! p = Some v → rc.1 !! p = Some v)
  ∧ ((innerState removeFp removeFi rc cs).2 !! p = Some v → rc.2 !! p = Some v).
Proof.
  revert rc. induction cs as [|[k x] cs IH]; intros rc; [done|].
  rewrite innerState_cons.
  destruct (SameFile removeFi x); [|apply IH].
  destruct (IH (delete removeFp rc.1, delete k rc.2)) as [IH1 IH2].
  simpl in *. split; intros H.
  - apply IH1 in H. by apply lookup_delete_Some in H as [_ ?].
  - apply IH2 in H. by apply lookup_delete_Some in H as [_ ?].
Qed.

Lemma outerState_sub l rc p v :
  ((outerState rangeFiles rc l).1 !! p = Some v → rc.1 !! p = Some v)
  ∧ ((outerState rangeFiles rc l).2 !! p = Some v → rc.2 !! p = Some v).
Proof.
  revert rc. induction l as [|[k x] l IH]; intros rc; [done|].
  rewrite outerState_cons.
  destruct (IH (innerState k x rc (rangeFiles (PollCreatedFor k) rc.2)))
    as [IH1 IH2].
  destruct (innerState_sub k x (rangeFiles (PollCreatedFor k) rc.2) rc p v)
    as [I1 I2].
  split; auto.
Qed.

(** A created entry outlives a removed entry's scan unless the scan
    meets it with the same file; a removed entry outlives every scan
    but its own. *)
Lemma innerState_created_keep removeFp removeFi cs rc p :
  (∀ k v, (k, v) ∈ cs → SameFile removeFi v = true → k ≠ p) →
  (innerState removeFp removeFi rc cs).2 !! p = rc.2 !! p.
Proof.
  revert rc. induction cs as [|[k x] cs IH]; intros rc Hcs; [done|].
  rewrite innerState_cons.
  destruct (SameFile removeFi x) eqn:Hsame.
  - rewrite IH by (intros k' v' Hin; apply Hcs; by right).
    simpl. apply lookup_delete_ne. eapply Hcs; [left|done].
  - apply IH. intros k' v' Hin; apply Hcs; by right.
Qed.

Lemma innerState_created_gone removeFp removeFi cs rc p v :
  (p, v) ∈ cs → SameFile removeFi v = true →
  (innerState removeFp removeFi rc cs).2 !! p = None.
Proof.
  revert rc. induction cs as [|[k x] cs IH]; intros rc Hin Hsame.
  { by apply elem_of_nil in Hin. }
  rewrite innerState_cons.
  apply elem_of_cons in Hin as [[= <- <-]|Hin].
  - rewrite Hsame. apply eq_None_not_Some. intros [y Hy].
    apply innerState_sub in Hy. simpl in Hy. by rewrite lookup_delete_eq in Hy.
  - destruct (SameFile removeFi x); by apply IH.
Qed.

Lemma innerState_removed_other removeFp removeFi cs rc p :
  p ≠ removeFp → (innerState removeFp removeFi rc cs).1 !! p = rc.1 !! p.
Proof.
  intros Hne. revert rc. induction cs as [|[k x] cs IH]; intros rc; [done|].
  rewrite innerState_cons.
  destruct (SameFile removeFi x); [|apply IH].
  rewrite IH. simpl. by apply lookup_delete_ne.
Qed.

Lemma innerState_removed_gone removeFp removeFi cs rc k v :
  (k, v) ∈ cs → SameFile removeFi v = true →
  (innerState removeFp removeFi rc cs).1 !! removeFp = None.
Proof.
  revert rc. induction cs as [|[k' x] cs IH]; intros rc Hin Hsame.
  { by apply elem_of_nil in Hin. }
  rewrite innerState_cons.
  apply elem_of_cons in Hin as [[= <- <-]|Hin].
  - rewrite Hsame. apply eq_None_not_Some. intros [y Hy].
    apply innerState_sub in Hy. simpl in Hy. by rewrite lookup_delete_eq in Hy.
  - destruct (SameFile removeFi x); by eapply IH.
Qed.

Lemma innerState_nomatch removeFp removeFi cs rc :
  (∀ k v, (k, v) ∈ cs → SameFile removeFi v = false) →
  innerState removeFp removeFi rc cs = rc
  ∧ innerEvents Dir removeFp removeFi cs = [].
Proof.
  revert rc. induction cs as [|[k x] cs IH]; intros rc Hcs; [done|].
  unfold innerState, innerEvents. simpl foldl.
  fold (innerState removeFp removeFi).
  assert (SameFile removeFi x = false) as Hx by (eapply Hcs; left).
  rewrite filter_cons_False by (simpl; congruence). simpl. rewrite Hx.
  apply IH. intros k' v' Hin. eapply Hcs. by right.
Qed.

Lemma outerState_created_keep l rc p v :
  (∀ k x, (k, x) ∈ l → SameFile x v = false) →
  rc.2 !! p = Some v → (outerState rangeFiles rc l).2 !! p = Some v.
Proof.
  revert rc. induction l as [|[k x] l IH]; intros rc Hl Hp; [done|].
  rewrite outerState_cons.
  apply IH; [intros k' x' Hin; eapply Hl; by right|].
  rewrite innerState_created_keep; [done|].
  intros k' v' Hin Hsame ->. apply range_elem in Hin.
  assert (v' = v) as -> by congruence.
  erewrite Hl in Hsame; [done|left].
Qed.

Lemma outerState_app l1 l2 rc :
  outerState rangeFiles rc (l1 ++ l2)
  = outerState rangeFiles (outerState rangeFiles rc l1) l2.
Proof. apply foldl_app. Qed.

Lemma outerEvents_app l1 l2 rc :
  outerEvents Dir rangeFiles rc (l1 ++ l2)
  = outerEvents Dir rangeFiles rc l1
    ++ outerEvents Dir rangeFiles (outerState rangeFiles rc l1) l2.
Proof.
  revert rc. induction l1 as [|[k x] l1 IH]; intros rc; [done|].
  simpl. by rewrite IH, <- app_assoc.
Qed.

(** *** Where the events of each phase are located *)

Lemma innerEvents_paths removeFp removeFi cs :
  Forall (λ ev, e_Path ev = removeFp ∧ e_FileInfo ev = removeFi)
         (innerEvents Dir removeFp removeFi cs).
Proof. unfold innerEvents. apply Forall_fmap, Forall_forall. by intros. Qed.

Lemma outerEvents_paths l rc :
  Forall (λ ev, (e_Path ev, e_FileInfo ev) ∈ l)
         (outerEvents Dir rangeFiles rc l).
Proof.
  revert rc. induction l as [|[k x] l IH]; intros rc; simpl; [constructor|].
  apply Forall_app. split.
  - eapply Forall_impl; [apply innerEvents_paths|].
    intros [fi pth op] [Hp Hf]. simpl in *. subst. left.
  - eapply Forall_impl; [apply IH|]. intros ev Hin. by right.
Qed.

Lemma modifyEvents_cons files k x l :
  modifyEvents files ((k, x) :: l)
  = match files !! k with
    | Some latestFi =>
        if changed latestFi x
        then mkEvent x k Modify :: modifyEvents files l
        else modifyEvents files l
    | None => modifyEvents files l
    end.
Proof.
  unfold modifyEvents. simpl. destruct (files !! k) as [y|]; [|done].
  by destruct (changed y x).
Qed.

Lemma modifyEvents_paths files l :
  Forall (λ ev, (e_Path ev, e_FileInfo ev) ∈ l
                ∧ is_Some (files !! e_Path ev) ∧ e_Op ev = Modify)
         (modifyEvents files l).
Proof.
  induction l as [|[k x] l IH]; [constructor|].
  assert (Forall (λ ev, (e_Path ev, e_FileInfo ev) ∈ (k, x) :: l
                ∧ is_Some (files !! e_Path ev) ∧ e_Op ev = Modify)
            (modifyEvents files l)) as IH'.
  { eapply Forall_impl; [apply IH|]. intros ev (?&?&?).
    split; [by right|done]. }
  rewrite modifyEvents_cons.
  destruct (files !! k) as [latestFi|] eqn:Hk; [|done].
  destruct (changed latestFi x); [|done].
  constructor; [|done]. simpl. rewrite Hk. split; [left|eauto].
Qed.

Lemma filter_path_nil (p : string) (evs : list Event) :
  Forall (λ ev, e_Path ev ≠ p) evs → filter (λ ev, e_Path ev = p) evs = [].
Proof.
  induction 1 as [|ev evs Hne _ IH]; [done|].
  by rewrite filter_cons_False.
Qed.

Lemma filter_path_all (p : string) (evs : list Event) :
  Forall (λ ev, e_Path ev = p) evs → filter (λ ev, e_Path ev = p) evs = evs.
Proof.
  induction 1 as [|ev evs Heq _ IH]; [done|].
  rewrite filter_cons_True by done. by rewrite IH.
Qed.

Lemma filter_none {A} (P : A → Prop) `{∀ x, Decision (P x)} (l : list A) :
  (∀ y, y ∈ l → ¬ P y) → filter P l = [].
Proof.
  induction l as [|a l IH]; intros Hl; [done|].
  rewrite filter_cons_False by (apply Hl; left).
  apply IH. intros y Hy. apply Hl. by right.
Qed.

Lemma filter_unique {A} (P : A → Prop) `{∀ x, Decision (P x)} (l : list A) x :
  NoDup l → x ∈ l → P x → (∀ y, y ∈ l → P y → y = x) → filter P l = [x].
Proof.
  induction l as [|a l IH]; intros Hnd Hin HP Huniq.
  { by apply elem_of_nil in Hin. }
  apply NoDup_cons in Hnd as [Ha Hnd].
  apply elem_of_cons in Hin as [->|Hin].
  - rewrite filter_cons_True by done. f_equal.
    apply filter_none. intros y Hy HPy.
    assert (y = a) as -> by (apply Huniq; [by right|done]). done.
  - rewrite filter_cons_False.
    + apply IH; auto. intros y Hy. apply Huniq. by right.
    + intros HPa. assert (a = x) as -> by (apply Huniq; [left|done]). done.
Qed.

(** The Modify events at a path that both snapshots hold. *)
Lemma modifyEvents_at files l p latestFi currFi :
  NoDup l.*1 → (p, currFi) ∈ l → files !! p = Some latestFi →
  filter (λ ev, e_Path ev = p) (modifyEvents files l)
  = if changed latestFi currFi then [mkEvent currFi p Modify] else [].
Proof.
  intros Hnd Hin Hp. induction l as [|[k x] l IH].
  { by apply elem_of_nil in Hin. }
  apply NoDup_cons in Hnd as [Hk Hnd]. simpl in Hk.
  rewrite modifyEvents_cons.
  apply elem_of_cons in Hin as [[= <- <-]|Hin].
  - rewrite Hp.
    assert (filter (λ ev, e_Path ev = p) (modifyEvents files l) = []) as Hrest.
    { apply filter_path_nil.
      eapply Forall_impl; [apply modifyEvents_paths|].
      intros ev (Hev & _) Heq. apply Hk. rewrite <- Heq.
      apply list_elem_of_fmap. by exists (e_Path ev, e_FileInfo ev). }
    destruct (changed latestFi currFi); [|done].
    rewrite filter_cons_True by done. by rewrite Hrest.
  - assert (k ≠ p) as Hne.
    { intros ->. apply Hk. apply list_elem_of_fmap. by exists (p, currFi). }
    specialize (IH Hnd Hin).
    destruct (files !! k) as [y|]; [|done].
    destruct (changed y x); [|done].
    by rewrite filter_cons_False.
Qed.

Lemma removedSet_lookup files curr p v :
  removedSet files curr !! p = Some v ↔ files !! p = Some v ∧ curr !! p = None.
Proof. unfold removedSet. by rewrite map_lookup_filter_Some. Qed.

Lemma createdSet_lookup files curr p v :
  createdSet files curr !! p = Some v ↔ curr !! p = Some v ∧ files !! p = None.
Proof. unfold createdSet. by rewrite map_lookup_filter_Some. Qed.

Lemma coalesced_located files curr :
  Forall (λ ev, files !! e_Path ev = Some (e_FileInfo ev)
                ∧ curr !! e_Path ev = None)
    (outerEvents Dir rangeFiles
       (removedSet files curr, createdSet files curr)
       (rangeFiles PollRemoved (removedSet files curr))).
Proof.
  eapply Forall_impl; [apply outerEvents_paths|].
  intros ev Hin. apply range_elem in Hin. by apply removedSet_lookup in Hin.
Qed.

Lemma created_located files curr l :
  Forall (λ ev, curr !! e_Path ev = Some (e_FileInfo ev)
                ∧ files !! e_Path ev = None ∧ e_Op ev = Create)
    (createEvents
       (rangeFiles PollCreated
          (outerState rangeFiles
             (removedSet files curr, createdSet files curr) l).2)).
Proof.
  unfold createEvents. apply Forall_fmap, Forall_forall.
  intros [k v] Hin. apply range_elem in Hin. apply outerState_sub in Hin.
  simpl in *. apply createdSet_lookup in Hin as [? ?]. done.
Qed.

Lemma removed_located files curr l :
  Forall (λ ev, files !! e_Path ev = Some (e_FileInfo ev)
                ∧ curr !! e_Path ev = None ∧ e_Op ev = Remove)
    (removeEvents
       (rangeFiles PollRemovedRest
          (outerState rangeFiles
             (removedSet files curr, createdSet files curr) l).1)).
Proof.
  unfold removeEvents. apply Forall_fmap, Forall_forall.
  intros [k v] Hin. apply range_elem in Hin. apply outerState_sub in Hin.
  simpl in *. apply removedSet_lookup in Hin as [? ?]. done.
Qed.

(** The events of a cycle at a path that both snapshots hold. *)
Lemma diffEvents_at_common files curr p latestFi currFi :
  files !! p = Some latestFi → curr !! p = Some currFi →
  filter (λ ev, e_Path ev = p) (diffEvents Dir rangeFiles files curr)
  = if changed latestFi currFi then [mkEvent currFi p Modify] else [].
Proof.
  intros Hf Hc. unfold diffEvents. cbv zeta. rewrite !filter_app.
  rewrite (modifyEvents_at files _ p latestFi currFi);
    [|apply range_NoDup|by apply range_elem|done].
  rewrite (filter_path_nil p (outerEvents _ _ _ _)).
  2:{ eapply Forall_impl; [apply coalesced_located|].
      intros ev [_ Hev] Heq. congruence. }
  rewrite (filter_path_nil p (createEvents _)).
  2:{ eapply Forall_impl; [apply created_located|].
      intros ev (_ & Hev & _) Heq. congruence. }
  rewrite (filter_path_nil p (removeEvents _)).
  2:{ eapply Forall_impl; [apply removed_located|].
      intros ev (_ & Hev & _) Heq. congruence. }
  by rewrite !app_nil_r.
Qed.



(** The events of a cycle at a removed path that shares its file with
    exactly one created path, which no other removed path shares. *)
Lemma diffEvents_at_paired files curr removeFp removeFi createFp createFi :
  files !! removeFp = Some removeFi → curr !! removeFp = None →
  curr !! createFp = Some createFi → files !! createFp = None →
  SameFile removeFi createFi = true →
  (∀ fp fi, curr !! fp = Some fi → files !! fp = None →
            SameFile removeFi fi = true → fp = createFp) →
  (∀ fp fi, files !! fp = Some fi → curr !! fp = None →
            SameFile fi createFi = true → fp = removeFp) →
  filter (λ ev, e_Path ev = removeFp) (diffEvents Dir rangeFiles files curr)
  = [renameOrMove Dir removeFp removeFi createFp]
  ∧ filter (λ ev, e_Path ev = createFp) (diffEvents Dir rangeFiles files curr)
    = [].
Proof.
  intros Hr Hrc Hc Hcf Hsame Hcuniq Hruniq.
  assert (removedSet files curr !! removeFp = Some removeFi) as HR
    by (by apply removedSet_lookup).
  assert (createdSet files curr !! createFp = Some createFi) as HC
    by (by apply createdSet_lookup).
  pose proof (range_NoDup PollRemoved (removedSet files curr)) as Hnd.
  pose proof (created_located files curr) as Hcreated.
  pose proof (removed_located files curr) as Hremoved.
  pose proof (coalesced_located files curr) as Hcoalesced.
  unfold diffEvents. cbv zeta.
  set (rc0 := (removedSet files curr, createdSet files curr)) in *.
  apply (range_elem PollRemoved), list_elem_of_split in HR
    as (l1 & l2 & Hl).
  rewrite Hl in Hnd, Hcoalesced |- *.
  specialize (Hcreated (l1 ++ (removeFp, removeFi) :: l2)).
  specialize (Hremoved (l1 ++ (removeFp, removeFi) :: l2)).
  rewrite fmap_app, fmap_cons in Hnd. simpl in Hnd.
  apply NoDup_app in Hnd as (Hnd1 & Hnot1 & Hnd2).
  apply NoDup_cons in Hnd2 as [Hnot2 _].
  assert (removeFp ∉ l1.*1) as Hnot1'.
  { intros Hin. eapply Hnot1; [done|left]. }
  (* the state when the scan of [removeFp] starts, and after it *)
  set (rc1 := outerState rangeFiles rc0 l1) in *.
  set (rc2 := innerState removeFp removeFi rc1
                (rangeFiles (PollCreatedFor removeFp) rc1.2)) in *.
  assert (∀ k x, (k, x) ∈ l1 → SameFile x createFi = false) as Hl1.
  { intros k x Hin. destruct (SameFile x createFi) eqn:Hx; [|done].
    exfalso. apply Hnot1'.
    assert ((k, x) ∈ rangeFiles PollRemoved (removedSet files curr)) as Hin'.
    { rewrite Hl. apply elem_of_app. by left. }
    apply range_elem, removedSet_lookup in Hin' as [Hk1 Hk2].
    rewrite <- (Hruniq k x Hk1 Hk2 Hx).
    apply list_elem_of_fmap. by exists (k, x). }
  assert (rc1.2 !! createFp = Some createFi) as Hc1.
  { apply outerState_created_keep; [done|]. by subst rc0. }
  assert (filter (λ kv, SameFile removeFi kv.2 = true)
                 (rangeFiles (PollCreatedFor removeFp) rc1.2)
          = [(createFp, createFi)]) as Hmatch.
  { apply filter_unique.
    - eapply NoDup_fmap_1, range_NoDup.
    - by apply range_elem.
    - done.
    - intros [k x] Hin Hx. simpl in Hx.
      apply range_elem in Hin. pose proof Hin as Hin0.
      apply outerState_sub in Hin0. subst rc0. simpl in Hin0.
      apply createdSet_lookup in Hin0 as [Hk1 Hk2].
      assert (k = createFp) as -> by (by eapply Hcuniq).
      congruence. }
  assert (rc2.2 !! createFp = None) as Hc2.
  { eapply innerState_created_gone; [by apply range_elem|done]. }
  assert (rc2.1 !! removeFp = None) as Hr2.
  { eapply innerState_removed_gone; [by apply range_elem|done]. }
  assert (outerState rangeFiles rc0 (l1 ++ (removeFp, removeFi) :: l2)
          = outerState rangeFiles rc2 l2) as Hfinal.
  { by rewrite outerState_app, outerState_cons. }
  rewrite Hfinal in *.
  rewrite outerEvents_app in Hcoalesced |- *. simpl outerEvents in *.
  fold rc1 in Hcoalesced |- *. fold rc2 in Hcoalesced |- *.
  unfold innerEvents in Hcoalesced |- * at 1 2. rewrite Hmatch in *.
  simpl map in *.
  split.
  - rewrite !filter_app.
    rewrite (filter_path_nil removeFp (modifyEvents _ _)).
    2:{ eapply Forall_impl; [apply modifyEvents_paths|].
        intros ev (Hev & _) Heq. apply range_elem in Hev. congruence. }
    rewrite (filter_path_nil removeFp (outerEvents _ _ _ l1)).
    2:{ eapply Forall_impl; [apply outerEvents_paths|].
        intros ev Hev Heq. apply Hnot1'. rewrite <- Heq.
        apply list_elem_of_fmap. by exists (e_Path ev, e_FileInfo ev). }
    rewrite (filter_path_nil removeFp (outerEvents _ _ _ l2)).
    2:{ eapply Forall_impl; [apply outerEvents_paths|].
        intros ev Hev Heq. apply Hnot2. rewrite <- Heq.
        apply list_elem_of_fmap. by exists (e_Path ev, e_FileInfo ev). }
    rewrite (filter_path_nil removeFp (createEvents _)).
    2:{ eapply Forall_impl; [apply Hcreated|].
        intros ev (Hev & _) Heq. congruence. }
    rewrite (filter_path_nil removeFp (removeEvents _)).
    2:{ unfold removeEvents. apply Forall_fmap, Forall_forall.
        intros [k x] Hin Heq. simpl in Heq. subst k.
        apply range_elem, outerState_sub in Hin. congruence. }
    rewrite filter_cons_True by done. by rewrite filter_nil.
  - apply filter_path_nil. rewrite !Forall_app. repeat split.
    + eapply Forall_impl; [apply modifyEvents_paths|].
      intros ev (_ & [y Hev] & _) Heq. congruence.
    + apply Forall_app in Hcoalesced as [H1 _].
      eapply Forall_impl; [apply H1|]. intros ev [Hev _] Heq. congruence.
    + apply Forall_app in Hcoalesced as [_ H2].
      apply Forall_app in H2 as [H2 _].
      eapply Forall_impl; [apply H2|]. intros ev [Hev _] Heq. congruence.
    + apply Forall_app in Hcoalesced as [_ H2].
      apply Forall_app in H2 as [_ H2].
      eapply Forall_impl; [apply H2|]. intros ev [Hev _] Heq. congruence.
    + unfold createEvents. apply Forall_fmap, Forall_forall.
      intros [k x] Hin Heq. simpl in Heq. subst k.
      apply range_elem, outerState_sub in Hin. congruence.
    + eapply Forall_impl; [apply Hremoved|].
      intros ev (Hev & _) Heq. congruence.
Qed.

Lemma SameFile_shared fi fi1 fi2 removeFi :
  SameFile removeFi fi1 = true → SameFile removeFi fi2 = true →
  SameFile fi fi2 = true → SameFile fi fi1 = true.
Proof.
  destruct fi as [a|], fi1 as [b|], fi2 as [c|], removeFi as [r|];
    simpl; try done.
  rewrite !andb_true_iff, !Z.eqb_eq. intros [? ?] [? ?] [? ?]. lia.
Qed.

(** The events of a cycle at a removed path whose file two created
    paths hold: the scan of the removed path meets both, whatever the
    enumeration order, and pairs with each. *)
Lemma diffEvents_at_shared files curr removeFp removeFi fp1 fi1 fp2 fi2 :
  files !! removeFp = Some removeFi → curr !! removeFp = None →
  fp1 ≠ fp2 →
  curr !! fp1 = Some fi1 → files !! fp1 = None →
  curr !! fp2 = Some fi2 → files !! fp2 = None →
  SameFile removeFi fi1 = true → SameFile removeFi fi2 = true →
  (∀ fp fi, files !! fp = Some fi → curr !! fp = None →
            SameFile fi fi1 = true → fp = removeFp) →
  (2 ≤ length (filter (λ ev, e_Path ev = removeFp)
                      (diffEvents Dir rangeFiles files curr)))%nat.
Proof.
  intros Hr Hrc Hne H1 H1f H2 H2f Hs1 Hs2 Hruniq.
  assert (removedSet files curr !! removeFp = Some removeFi) as HR
    by (by apply removedSet_lookup).
  pose proof (range_NoDup PollRemoved (removedSet files curr)) as Hnd.
  unfold diffEvents. cbv zeta.
  set (rc0 := (removedSet files curr, createdSet files curr)) in *.
  apply (range_elem PollRemoved), list_elem_of_split in HR
    as (l1 & l2 & Hl).
  rewrite Hl in Hnd |- *.
  rewrite fmap_app, fmap_cons in Hnd. simpl in Hnd.
  apply NoDup_app in Hnd as (_ & Hnot1 & _).
  assert (removeFp ∉ l1.*1) as Hnot1'.
  { intros Hin. eapply Hnot1; [done|left]. }
  set (rc1 := outerState rangeFiles rc0 l1) in *.
  assert (∀ k x, (k, x) ∈ l1 → SameFile x fi1 = false) as Hl1.
  { intros k x Hin. destruct (SameFile x fi1) eqn:Hx; [|done].
    exfalso. apply Hnot1'.
    assert ((k, x) ∈ rangeFiles PollRemoved (removedSet files curr)) as Hin'.
    { rewrite Hl. apply elem_of_app. by left. }
    apply range_elem, removedSet_lookup in Hin' as [Hk1 Hk2].
    rewrite <- (Hruniq k x Hk1 Hk2 Hx).
    apply list_elem_of_fmap. by exists (k, x). }
  assert (∀ k x, (k, x) ∈ l1 → SameFile x fi2 = false) as Hl2.
  { intros k x Hin. destruct (SameFile x fi2) eqn:Hx; [|done].
    rewrite <- (Hl1 k x Hin). symmetry.
    by apply (SameFile_shared x fi1 fi2 removeFi). }
  assert ((fp1, fi1) ∈ rangeFiles (PollCreatedFor removeFp) rc1.2) as Hin1.
  { apply range_elem, outerState_created_keep; [done|].
    by apply createdSet_lookup. }
  assert ((fp2, fi2) ∈ rangeFiles (PollCreatedFor removeFp) rc1.2) as Hin2.
  { apply range_elem, outerState_created_keep; [done|].
    by apply createdSet_lookup. }
  assert (2 ≤ length (innerEvents Dir removeFp removeFi
                        (rangeFiles (PollCreatedFor removeFp) rc1.2)))%nat
    as Hlen.
  { unfold innerEvents. rewrite length_map.
    apply (submseteq_length [(fp1, fi1); (fp2, fi2)]).
    apply NoDup_submseteq.
    - apply NoDup_cons. split; [|apply NoDup_singleton].
      intros Hin. apply list_elem_of_singleton in Hin. congruence.
    - intros kv Hkv. apply list_elem_of_filter.
      apply elem_of_cons in Hkv as [->|Hkv]; [done|].
      apply list_elem_of_singleton in Hkv as ->. done. }
  rewrite outerEvents_app. simpl outerEvents. fold rc1.
  rewrite !filter_app, !length_app.
  rewrite (filter_path_all removeFp (innerEvents _ _ _ _)).
  2:{ eapply Forall_impl; [apply innerEvents_paths|]. by intros ev [? _]. }
  lia.
Qed.

(** In a cycle that no shutdown interrupts, a removed path whose file
    two created paths hold has at least two events located at it. *)
Lemma pollEvents_shared_file w curr removeFp removeFi fp1 fi1 fp2 fi2 :
  closed w = false → statted (files w) curr →
  files w !! removeFp = Some removeFi → curr !! removeFp = None →
  fp1 ≠ fp2 →
  curr !! fp1 = Some fi1 → files w !! fp1 = None →
  curr !! fp2 = Some fi2 → files w !! fp2 = None →
  SameFile removeFi fi1 = true → SameFile removeFi fi2 = true →
  (∀ fp fi, files w !! fp = Some fi → curr !! fp = None →
            SameFile fi fi1 = true → fp = removeFp) →
  (2 ≤ length (filter (λ ev, e_Path ev = removeFp)
                      (sent (pollEvents Dir rangeFiles w curr))))%nat.
Proof.
  intros Hopen Hst. rewrite pollEvents_diffEvents by done.
  apply diffEvents_at_shared.
Qed.

(** C4, amended.  In a cycle that no shutdown interrupts, for a removed
    path and a created path whose metadata denote the same file, where
    no other created path shares the removed path's file and no other
    removed path shares the created path's file, exactly one event is
    located at the removed path: Rename when the two paths have the
    same parent directory, Move otherwise, with the removed entry's
    metadata; and no event is located at the created path.  So neither
    path is reported as a plain Create or Remove. *)
Theorem pollEvents_coalesces_pair w curr removeFp removeFi createFp createFi :
  closed w = false → statted (files w) curr →
  files w !! removeFp = Some removeFi → curr !! removeFp = None →
  curr !! createFp = Some createFi → files w !! createFp = None →
  SameFile removeFi createFi = true →
  (∀ fp fi, curr !! fp = Some fi → files w !! fp = None →
            SameFile removeFi fi = true → fp = createFp) →
  (∀ fp fi, files w !! fp = Some fi → curr !! fp = None →
            SameFile fi createFi = true → fp = removeFp) →
  ending (pollEvents Dir rangeFiles w curr) = inr tt
  ∧ filter (λ ev, e_Path ev = removeFp)
           (sent (pollEvents Dir rangeFiles w curr))
    = [mkEvent removeFi removeFp
         (if bool_decide (Dir removeFp = Dir createFp) then Rename else Move)]
  ∧ Forall (λ ev, e_Path ev ≠ createFp)
           (sent (pollEvents Dir rangeFiles w curr)).
Proof.
  intros Hopen Hst Hr Hrc Hc Hcf Hsame Hcuniq Hruniq.
  rewrite pollEvents_diffEvents by done. split; [done|]. simpl.
  destruct (diffEvents_at_paired (files w) curr removeFp removeFi
              createFp createFi) as [H1 H2]; try done.
  split; [done|].
  apply Forall_forall. intros ev Hin Heq.
  assert (ev ∈ filter (λ ev, e_Path ev = createFp)
                 (diffEvents Dir rangeFiles (files w) curr)) as Hin'
    by (by apply list_elem_of_filter).
  rewrite H2 in Hin'. by apply elem_of_nil in Hin'.
Qed.

(** *** Replaying the events of a cycle *)

Lemma replayStep_other relocate S ev p :
  plain ev → e_Path ev ≠ p → replayStep relocate S ev !! p = S !! p.
Proof.
  unfold replayStep. intros [H|[H|H]] Hne; rewrite H; simpl.
  - by apply lookup_insert_ne.
  - by apply lookup_delete_ne.
  - by apply lookup_insert_ne.
Qed.

Lemma replayStep_same relocate S S' ev :
  plain ev →
  replayStep relocate S ev !! e_Path ev
  = replayStep relocate S' ev !! e_Path ev.
Proof.
  unfold replayStep. intros [H|[H|H]]; rewrite H; simpl.
  - by rewrite !lookup_insert_eq.
  - by rewrite !lookup_delete_eq.
  - by rewrite !lookup_insert_eq.
Qed.

(** What a replay leaves at a path depends only on the events located
    at that path. *)
Lemma replay_lookup_filter relocate evs S S' p :
  Forall plain evs → S !! p = S' !! p →
  replay relocate S evs !! p
  = replay relocate S' (filter (λ ev, e_Path ev = p) evs) !! p.
Proof.
  intros Hplain. revert S S'.
  induction Hplain as [|ev evs Hev _ IH]; intros S S' HS; [done|].
  destruct (decide (e_Path ev = p)) as [Heq|Hne].
  - rewrite filter_cons_True by done. simpl. apply IH.
    rewrite <- Heq. by apply replayStep_same.
  - rewrite filter_cons_False by done. simpl. apply IH.
    by rewrite replayStep_other.
Qed.

Lemma outer_nomatch l rc :
  (∀ k x k' x', (k, x) ∈ l → rc.2 !! k' = Some x' → SameFile x x' = false) →
  outerState rangeFiles rc l = rc ∧ outerEvents Dir rangeFiles rc l = [].
Proof.
  induction l as [|[k x] l IH]; intros Hl; [done|].
  rewrite outerState_cons. simpl.
  destruct (innerState_nomatch k x (rangeFiles (PollCreatedFor k) rc.2) rc)
    as [-> ->].
  { intros k' x' Hin. apply range_elem in Hin. eapply Hl; [left|done]. }
  apply IH. intros k0 x0 k' x' Hin. eapply Hl. by right.
Qed.

Lemma filter_path_map (mk : string * FileInfo → Event) l p :
  (∀ kv, e_Path (mk kv) = kv.1) → NoDup l.*1 →
  filter (λ ev, e_Path ev = p) (map mk l)
  = match list_to_map (M:=gmap string FileInfo) l !! p with
    | Some v => [mk (p, v)]
    | None => []
    end.
Proof.
  intros Hmk. induction l as [|[k x] l IH]; intros Hnd; [done|].
  apply NoDup_cons in Hnd as [Hk Hnd]. simpl in Hk. simpl.
  destruct (decide (k = p)) as [->|Hne].
  - rewrite filter_cons_True by (by rewrite Hmk).
    rewrite lookup_insert_eq, IH by done.
    by rewrite (not_elem_of_list_to_map_1 _ _ Hk).
  - rewrite filter_cons_False by (by rewrite Hmk).
    rewrite lookup_insert_ne by done. by apply IH.
Qed.

Lemma filter_path_range (mk : string * FileInfo → Event) site m p :
  (∀ kv, e_Path (mk kv) = kv.1) →
  filter (λ ev, e_Path ev = p) (map mk (rangeFiles site m))
  = match m !! p with Some v => [mk (p, v)] | None => [] end.
Proof.
  intros Hmk. rewrite filter_path_map by (done || apply range_NoDup).
  assert (list_to_map (rangeFiles site m) = m) as ->; [|done].
  rewrite (list_to_map_proper (rangeFiles site m) (map_to_list m));
    [apply list_to_map_to_list|apply range_NoDup|apply rangeFiles_perm].
Qed.

(** C5, amended.  In a cycle that no shutdown interrupts, when no
    removed path shares its file with a created path and the metadata
    of a path held by both snapshots are equal whenever the test of
    step 3 finds the modification time and the size unchanged,
    replaying the events sent onto the previous snapshot gives the
    current snapshot: Create adds an entry, Remove deletes one, Modify
    updates the metadata; no Rename or Move event is sent. *)
Theorem replay_pollEvents relocate w curr :
  closed w = false → statted (files w) curr →
  (∀ removeFp removeFi createFp createFi,
      files w !! removeFp = Some removeFi → curr !! removeFp = None →
      curr !! createFp = Some createFi → files w !! createFp = None →
      SameFile removeFi createFi = false) →
  (∀ fp latestFi currFi,
      files w !! fp = Some latestFi → curr !! fp = Some currFi →
      changed latestFi currFi = false → latestFi = currFi) →
  replay relocate (files w) (sent (pollEvents Dir rangeFiles w curr)) = curr.
Proof.
  intros Hopen Hst Hno Hvis. rewrite pollEvents_diffEvents by done. simpl.
  assert (diffEvents Dir rangeFiles (files w) curr
          = modifyEvents (files w) (rangeFiles PollCurr curr)
            ++ createEvents
                 (rangeFiles PollCreated (createdSet (files w) curr))
            ++ removeEvents
                 (rangeFiles PollRemovedRest (removedSet (files w) curr)))
    as Hev.
  { unfold diffEvents. cbv zeta.
    destruct (outer_nomatch (rangeFiles PollRemoved (removedSet (files w) curr))
                (removedSet (files w) curr, createdSet (files w) curr))
      as [-> ->]; [|done].
    intros k x k' x' Hin Hk'. simpl in Hk'.
    apply range_elem, removedSet_lookup in Hin as [? ?].
    apply createdSet_lookup in Hk' as [? ?]. eauto. }
  assert (Forall plain (diffEvents Dir rangeFiles (files w) curr)) as Hplain.
  { rewrite Hev, !Forall_app. repeat split.
    - eapply Forall_impl; [apply modifyEvents_paths|].
      intros ev (_ & _ & ?). unfold plain. auto.
    - unfold createEvents. apply Forall_fmap, Forall_forall.
      intros kv _. unfold plain. simpl. auto.
    - unfold removeEvents. apply Forall_fmap, Forall_forall.
      intros kv _. unfold plain. simpl. auto. }
  apply map_eq. intros p.
  rewrite (replay_lookup_filter relocate _ (files w) (files w) p) by done.
  destruct (files w !! p) as [latestFi|] eqn:Hf;
    destruct (curr !! p) as [currFi|] eqn:Hc.
  - rewrite (diffEvents_at_common _ _ _ _ _ Hf Hc).
    destruct (Hst p _ _ Hf Hc) as [[l ->] [c ->]].
    destruct (changed (Some l) (Some c)) eqn:Hch.
    + simpl. unfold replayStep. simpl. by rewrite lookup_insert_eq.
    + simpl. rewrite Hf. f_equal. by apply Hvis with p.
  - rewrite Hev, !filter_app.
    rewrite (filter_path_nil p (modifyEvents _ _)).
    2:{ eapply Forall_impl; [apply modifyEvents_paths|].
        intros ev (Hin & _) Heq. apply range_elem in Hin. congruence. }
    unfold createEvents, removeEvents.
    rewrite !filter_path_range by done.
    assert (createdSet (files w) curr !! p = None) as ->.
    { apply eq_None_not_Some. intros [v Hv].
      apply createdSet_lookup in Hv as [? ?]. congruence. }
    assert (removedSet (files w) curr !! p = Some latestFi) as ->
      by (by apply removedSet_lookup).
    simpl. unfold replayStep. simpl. by rewrite lookup_delete_eq.
  - rewrite Hev, !filter_app.
    rewrite (filter_path_nil p (modifyEvents _ _)).
    2:{ eapply Forall_impl; [apply modifyEvents_paths|].
        intros ev (_ & [y Hy] & _) Heq. congruence. }
    unfold createEvents, removeEvents.
    rewrite !filter_path_range by done.
    assert (createdSet (files w) curr !! p = Some currFi) as ->
      by (by apply createdSet_lookup).
    assert (removedSet (files w) curr !! p = None) as ->.
    { apply eq_None_not_Some. intros [v Hv].
      apply removedSet_lookup in Hv as [? ?]. congruence. }
    simpl. unfold replayStep. simpl. by rewrite lookup_insert_eq.
  - rewrite Hev, !filter_app.
    rewrite (filter_path_nil p (modifyEvents _ _)).
    2:{ eapply Forall_impl; [apply modifyEvents_paths|].
        intros ev (_ & [y Hy] & _) Heq. congruence. }
    unfold createEvents, removeEvents.
    rewrite !filter_path_range by done.
    assert (createdSet (files w) curr !! p = None) as ->.
    { apply eq_None_not_Some. intros [v Hv].
      apply createdSet_lookup in Hv as [? ?]. congruence. }
    assert (removedSet (files w) curr !! p = None) as ->.
    { apply eq_None_not_Some. intros [v Hv].
      apply removedSet_lookup in Hv as [? ?]. congruence. }
    done.
Qed.

(** *** Paths that are only created, only removed, or unchanged *)

Lemma range_empty site : rangeFiles site ∅ = [].
Proof.
  apply Permutation_nil_r. rewrite rangeFiles_perm.
  by rewrite map_to_list_empty.
Qed.

Lemma pollEvents_same w :
  closed w = false →
  (∀ fp fi, files w !! fp = Some fi → is_Some fi) →
  pollEvents Dir rangeFiles w (files w) = ([], inr tt).
Proof.
  intros Hopen Hmeta. rewrite pollEvents_diffEvents; [|done|].
  2:{ intros fp a b Ha Hb. split; eauto. }
  f_equal. unfold diffEvents. cbv zeta.
  assert (removedSet (files w) (files w) = ∅) as HR.
  { apply map_empty. intros p. apply map_lookup_filter_None.
    right. intros x Hx. simpl. by rewrite Hx. }
  assert (createdSet (files w) (files w) = ∅) as HC by exact HR.
  rewrite HR, HC, !range_empty. simpl. rewrite ?range_empty. simpl.
  rewrite ?app_nil_r.
  destruct (modifyEvents (files w) (rangeFiles PollCurr (files w)))
    as [|ev evs] eqn:Hmod; [done|].
  exfalso.
  assert (ev ∈ modifyEvents (files w) (rangeFiles PollCurr (files w)))
    as Hin by (rewrite Hmod; left).
  unfold modifyEvents in Hin. apply list_elem_of_omap in Hin
    as ([k v] & Hkv & Hsome).
  apply range_elem in Hkv. simpl in Hsome. rewrite Hkv in Hsome.
  destruct (Hmeta k v Hkv) as [st ->]. unfold changed in Hsome.
  by rewrite !Z.eqb_refl in Hsome.
Qed.

(** X17.  Diffing a snapshot against itself sends nothing: on an open
    watcher whose stored entries all have their metadata, a cycle that
    lists exactly the stored snapshot runs to its end without an
    event. *)
Theorem pollEvents_unchanged w :
  closed w = false →
  (∀ fp fi, files w !! fp = Some fi → is_Some fi) →
  pollEvents Dir rangeFiles w (files w) = ([], inr tt).
Proof. apply pollEvents_same. Qed.

(** X18.  A path that only the current snapshot holds, and whose file
    no removed path holds, is reported by exactly one event, a Create
    with the current metadata. *)
Theorem pollEvents_plain_create w curr fp fi :
  closed w = false → statted (files w) curr →
  curr !! fp = Some fi → files w !! fp = None →
  (∀ removeFp removeFi,
      files w !! removeFp = Some removeFi → curr !! removeFp = None →
      SameFile removeFi fi = false) →
  filter (λ ev, e_Path ev = fp) (sent (pollEvents Dir rangeFiles w curr))
  = [mkEvent fi fp Create].
Proof.
  intros Hopen Hst Hc Hf Hnone. rewrite pollEvents_diffEvents by done.
  simpl. unfold diffEvents. cbv zeta. rewrite !filter_app.
  rewrite (filter_path_nil fp (modifyEvents _ _)).
  2:{ eapply Forall_impl; [apply modifyEvents_paths|].
      intros ev (_ & [y Hy] & _) Heq. congruence. }
  rewrite (filter_path_nil fp (outerEvents _ _ _ _)).
  2:{ eapply Forall_impl; [apply coalesced_located|].
      intros ev [Hev _] Heq. congruence. }
  rewrite (filter_path_nil fp (removeEvents _)).
  2:{ eapply Forall_impl; [apply removed_located|].
      intros ev (Hev & _) Heq. congruence. }
  unfold createEvents. rewrite filter_path_range by done.
  rewrite (outerState_created_keep _ _ fp fi).
  - by rewrite app_nil_r.
  - intros k x Hin. apply range_elem, removedSet_lookup in Hin as [? ?].
    eauto.
  - by apply createdSet_lookup.
Qed.

Lemma outer_unmatched l rc fp fi :
  (∀ c fc, rc.2 !! c = Some fc → SameFile fi fc = false) →
  (∀ x, (fp, x) ∈ l → x = fi) →
  filter (λ ev, e_Path ev = fp) (outerEvents Dir rangeFiles rc l) = []
  ∧ (outerState rangeFiles rc l).1 !! fp = rc.1 !! fp.
Proof.
  revert rc. induction l as [|[k x] l IH]; intros rc Hrc Hl; [done|].
  rewrite outerState_cons. simpl outerEvents. rewrite filter_app.
  set (cs := rangeFiles (PollCreatedFor k) rc.2).
  destruct (IH (innerState k x rc cs)) as [IH1 IH2].
  { intros c fc Hc. apply innerState_sub in Hc. eauto. }
  { intros y Hy. apply Hl. by right. }
  rewrite IH1, IH2, app_nil_r.
  destruct (decide (k = fp)) as [->|Hne].
  - assert (x = fi) as -> by (apply Hl; left).
    destruct (innerState_nomatch fp fi cs rc) as [-> ->]; [|done].
    intros c fc Hin. apply range_elem in Hin. eauto.
  - split; [|by apply innerState_removed_other].
    apply filter_path_nil.
    eapply Forall_impl; [apply innerEvents_paths|].
    intros ev [Hev _] Heq. congruence.
Qed.

(** X19.  A path that only the previous snapshot holds, and whose file
    no created path holds, is reported by exactly one event, a Remove
    with the previous metadata. *)
Theorem pollEvents_plain_remove w curr fp fi :
  closed w = false → statted (files w) curr →
  files w !! fp = Some fi → curr !! fp = None →
  (∀ createFp createFi,
      curr !! createFp = Some createFi → files w !! createFp = None →
      SameFile fi createFi = false) →
  filter (λ ev, e_Path ev = fp) (sent (pollEvents Dir rangeFiles w curr))
  = [mkEvent fi fp Remove].
Proof.
  intros Hopen Hst Hf Hc Hnone. rewrite pollEvents_diffEvents by done.
  simpl. unfold diffEvents. cbv zeta. rewrite !filter_app.
  rewrite (filter_path_nil fp (modifyEvents _ _)).
  2:{ eapply Forall_impl; [apply modifyEvents_paths|].
      intros ev (Hin & _) Heq. apply range_elem in Hin. congruence. }
  rewrite (filter_path_nil fp (createEvents _)).
  2:{ eapply Forall_impl; [apply created_located|].
      intros ev (Hev & _) Heq. congruence. }
  destruct (outer_unmatched
              (rangeFiles PollRemoved (removedSet (files w) curr))
              (removedSet (files w) curr, createdSet (files w) curr)
              fp fi) as [-> Hkept].
  { intros c fc Hin. apply createdSet_lookup in Hin as [? ?]. eauto. }
  { intros x Hin. apply range_elem, removedSet_lookup in Hin as [? ?].
    congruence. }
  unfold removeEvents. rewrite filter_path_range by done.
  rewrite Hkept. simpl.
  by rewrite (proj2 (removedSet_lookup (files w) curr fp fi) (conj Hf Hc)).
Qed.
End Diff.

(** ** The start/stop flag *)

Lemma CompareAndSwap_taken v :
  v ≠ 0 → CompareAndSwap v 0 1 = (v, false).
Proof. unfold CompareAndSwap. intros Hv. by apply Z.eqb_neq in Hv as ->. Qed.

(** [Start] and [Close] test and set the same flag from 0 to 1, so
    whichever is called first leaves nothing for the other to do. *)
Lemma Start_taken w : running w ≠ 0 → Start w = (w, Some ErrWatcherStarted).
Proof. intros Hr. unfold Start. by rewrite CompareAndSwap_taken. Qed.

Lemma Close_taken w : running w ≠ 0 → Close w = w.
Proof. intros Hr. unfold Close. by rewrite CompareAndSwap_taken. Qed.

Lemma idle_Start w : idle w → scanning (Start w).1 ∧ (Start w).2 = None.
Proof.
  intros (Hr & Hwg & Hc & He & Hx). unfold Start, CompareAndSwap, scanning.
  rewrite Hr. simpl. rewrite Hc. simpl. by rewrite Hwg.
Qed.

Lemma idle_Close w : idle w → shut (Close w).
Proof.
  intros (Hr & _). unfold Close, CompareAndSwap, shut. by rewrite Hr.
Qed.

Lemma scanning_step w c : scanning w → lifecycleStep w c = w.
Proof.
  intros (Hr & _). destruct c; simpl.
  - rewrite Start_taken; [done|lia].
  - apply Close_taken. lia.
Qed.

Lemma shut_step w c : shut w → lifecycleStep w c = w.
Proof.
  intros (Hr & _). destruct c; simpl.
  - rewrite Start_taken; [done|lia].
  - apply Close_taken. lia.
Qed.

Lemma lifecycle_states (calls : list lifecycleCall) :
  let w := foldl lifecycleStep NewWatcher calls in
  idle w ∨ scanning w ∨ shut w.
Proof.
  induction calls as [|c calls IH] using rev_ind; simpl.
  { left. by repeat split. }
  rewrite foldl_app. simpl. destruct IH as [Hi|[Hs|Hs]].
  - destruct c; simpl.
    + right; left. by apply idle_Start.
    + right; right. by apply idle_Close.
  - right; left. by rewrite scanning_step.
  - right; right. by rewrite shut_step.
Qed.

(** Once the scan loop runs, no sequence of calls stops it or closes a
    channel. *)
Lemma scanning_forever w (calls : list lifecycleCall) :
  scanning w → foldl lifecycleStep w calls = w.
Proof.
  intros Hs. induction calls as [|c calls IH] using rev_ind; [done|].
  rewrite foldl_app. simpl. rewrite IH. by apply scanning_step.
Qed.

(** ** Listing *)

Section Listing.
Variable Dir : string → string.
Variable Join : string → string → string.
Variable rangeFiles :
  rangeSite → gmap string FileInfo → list (string * FileInfo).
Variable rangeNames : gset string → list string.

(** Every error [listForName] returns was made by [fmt.Errorf] from the
    message of the cause, and [os.IsNotExist] does not recognise it. *)
Lemma listForName_error fs name err :
  listForName Join fs name = Fail err → IsNotExist err = false.
Proof.
  unfold listForName. destruct (Stat fs name) as [stat|e]; [|by intros [= <-]].
  destruct (negb (IsDir stat)); [done|].
  destruct (ReadDir fs name) as [es|e]; [done|by intros [= <-]].
Qed.

(** So [listForAll] never reaches its call of [doRemove]: it leaves the
    watcher as it found it, whatever the listings return. *)
Lemma listForAll_loop fs w :
  listForAll Dir Join rangeFiles rangeNames fs w
  = forRange (rangeNames (names w))
             (listStep Dir Join rangeFiles fs) (w, ∅).
Proof. reflexivity. Qed.

Lemma listStep_keeps fs w l fileList :
  match ending (forRange l (listStep Dir Join rangeFiles fs) (w, fileList))
  with
  | inr (w', _) | inl (Return (w', _)) => w' = w
  | inl NilDeref => False
  end.
Proof.
  revert fileList. induction l as [|name l IH]; intros fileList; [done|].
  change (forRange (name :: l) (listStep Dir Join rangeFiles fs) (w, fileList))
    with (listStep Dir Join rangeFiles fs (w, fileList) name
          ≫= forRange l (listStep Dir Join rangeFiles fs)).
  set (rest := forRange l (listStep Dir Join rangeFiles fs)) in *.
  rewrite ending_bind. unfold listStep. cbv beta iota.
  destruct (listForName Join fs name) as [fl|err] eqn:Hlist.
  - simpl. apply IH.
  - rewrite (listForName_error _ _ _ Hlist). simpl.
    unfold send. destruct (closed w); simpl; [done|]. apply IH.
Qed.

Lemma listForAll_keeps fs w :
  match ending (listForAll Dir Join rangeFiles rangeNames fs w) with
  | inr (w', _) | inl (Return (w', _)) => w' = w
  | inl NilDeref => False
  end.
Proof. rewrite listForAll_loop. apply listStep_keeps. Qed.

(** A failed listing is reported on every cycle and its target stays
    registered. *)
Lemma tick_keeps_names fs w w' :
  (tick Dir Join rangeFiles rangeNames fs w).2 = Some w' →
  names w' = names w.
Proof.
  unfold tick. pose proof (listForAll_keeps fs w) as Hkeep.
  destruct (listForAll Dir Join rangeFiles rangeNames fs w)
    as [errs [[|[w1 curr]]|[w1 curr]]]; simpl in *; [done| |]; subst w1.
  - destruct (pollEvents Dir rangeFiles w curr) as [evs [[|[]]|[]]];
      simpl; [done|by intros [= <-]..].
  - destruct (pollEvents Dir rangeFiles w curr) as [evs [[|[]]|[]]];
      simpl; [done|by intros [= <-]..].
Qed.

(** A directory's listing holds an entry for every child [ReadDir]
    returned, whether or not [Info] succeeded for it. *)
Lemma listForName_children l (list : gmap string FileInfo) name entry :
  entry ∈ l →
  is_Some (foldl
             (λ list dirEntry,
                let fp := Join name (Name dirEntry) in
                <[fp := match Info dirEntry with
                        | OK fi => Some fi
                        | Fail _ => None
                        end]> list)
             list l !! Join name (Name entry)).
Proof.
  revert list. induction l as [|e l IH] using rev_ind; intros list Hin.
  { by apply elem_of_nil in Hin. }
  rewrite foldl_app. simpl.
  destruct (decide (Join name (Name e) = Join name (Name entry))) as [->|Hne].
  - rewrite lookup_insert_eq. eauto.
  - rewrite lookup_insert_ne by done. apply IH.
    apply elem_of_app in Hin as [Hin|Hin]; [done|].
    apply list_elem_of_singleton in Hin. by subst.
Qed.

Lemma listForName_entry fs name stat entries entry :
  Stat fs name = OK stat → IsDir stat = true →
  ReadDir fs name = OK entries → entry ∈ entries →
  ∃ list, listForName Join fs name = OK list
          ∧ is_Some (list !! Join name (Name entry)).
Proof.
  intros Hstat Hdir Hread Hin. unfold listForName.
  rewrite Hstat, Hdir, Hread. simpl. eexists. split; [done|].
  by apply listForName_children.
Qed.
End Listing.

(** ** The claims on concrete runs *)

Lemma ascending_perm site (m : gmap string FileInfo) :
  ascending site m ≡ₚ map_to_list m.
Proof. reflexivity. Qed.

Lemma descending_perm site (m : gmap string FileInfo) :
  descending site m ≡ₚ map_to_list m.
Proof. unfold descending. apply reverse_Permutation. Qed.

Lemma alternating_perm site (m : gmap string FileInfo) :
  alternating site m ≡ₚ map_to_list m.
Proof. destruct site; simpl; (reflexivity || apply reverse_Permutation). Qed.

(** C1 (the code departs from it).  [Close] on a watcher that [Start] has
    put in the Running state returns at its guard: the watcher is left as
    it was, the scan loop live, the shutdown channel not signalled, and
    the Events and Errors channels open. *)
Theorem Close_after_Start_returns_early :
  (Start NewWatcher).2 = None
  ∧ scanning (Start NewWatcher).1
  ∧ Close (Start NewWatcher).1 = (Start NewWatcher).1
  ∧ closed (Close (Start NewWatcher).1) = false
  ∧ wg (Close (Start NewWatcher).1) = 1%nat
  ∧ EventsClosed (Close (Start NewWatcher).1) = false
  ∧ ErrorsClosed (Close (Start NewWatcher).1) = false.
Proof. by repeat split. Qed.

(** C2 (the code departs from it).  The watched path [/gone] no longer
    exists: the cycle reports the failure of its listing, built by
    [fmt.Errorf], and [/gone] is still a registered target afterwards, so
    the next cycle reports it again. *)
Theorem tick_keeps_vanished_target :
  let w := watching ["/gone"] (<["/gone" := regular 7 100 10]> ∅) in
  let report :=
    errorString "name /gone with error stat /gone: no such file or directory" in
  ∃ w' w'' evs,
    tick parentDir joinPath ascending elements fsGone w
    = ([report], [mkEvent (regular 7 100 10) "/gone" Remove], Some w')
    ∧ elements (names w') = ["/gone"]
    ∧ IsNotExist report = false
    ∧ tick parentDir joinPath ascending elements fsGone w'
      = ([report], evs, Some w'')
    ∧ elements (names w'') = ["/gone"].
Proof. do 3 eexists. vm_compute. by repeat split. Qed.

(** C3 (the code departs from it).  [/d/a] was renamed to [/d/b] and
    [/d/b] hard-linked as [/d/c]: the removed path [/d/a], once paired
    with one of the two created paths, is paired again with the other,
    and two Rename events are located at it, in each of the three
    enumeration orders. *)
Theorem pollEvents_pairs_removed_path_twice :
  filter (λ ev, e_Path ev = "/d/a")
         (sent (pollEvents parentDir ascending (watching ["/d"] snapA) snapBC))
  = [mkEvent (regular 5 100 10) "/d/a" Rename;
     mkEvent (regular 5 100 10) "/d/a" Rename]
  ∧ filter (λ ev, e_Path ev = "/d/a")
           (sent (pollEvents parentDir descending (watching ["/d"] snapA) snapBC))
    = [mkEvent (regular 5 100 10) "/d/a" Rename;
       mkEvent (regular 5 100 10) "/d/a" Rename]
  ∧ filter (λ ev, e_Path ev = "/d/a")
           (sent (pollEvents parentDir alternating (watching ["/d"] snapA) snapBC))
    = [mkEvent (regular 5 100 10) "/d/a" Rename;
       mkEvent (regular 5 100 10) "/d/a" Rename].
Proof. repeat split; vm_compute; reflexivity. Qed.

(** C4 as stated fails: of two removed hard links [/d/a1] and [/d/a2] and
    the created path [/d/b] holding the same file, the first removed path
    enumerated takes the created path, and the other one, here [/d/a2],
    is reported as a plain Remove. *)
Lemma coalescesEveryPair_fails :
  ¬ coalescesEveryPair parentDir ascending (watching ["/d"] snapA12) snapB.
Proof.
  intros H.
  destruct (H "/d/a2" (regular 5 100 10) "/d/b" (regular 5 100 10))
    as [Hat _]; try (vm_compute; reflexivity).
  vm_compute in Hat. discriminate.
Qed.

(** C5 as stated fails: the cycles from [snapA] to [snapB] and from
    [snapA] to [snapC] send the same events, a Rename located at [/d/a]
    that does not say where the file went, so no replayer rebuilds
    both. *)
Lemma roundTrips_fails :
  ¬ ∃ replayer,
      roundTrips parentDir ascending replayer (watching ["/d"] snapA) snapB
      ∧ roundTrips parentDir ascending replayer (watching ["/d"] snapA) snapC.
Proof.
  intros (replayer & HB & HC). unfold roundTrips in *.
  assert (sent (pollEvents parentDir ascending (watching ["/d"] snapA) snapB)
          = sent (pollEvents parentDir ascending (watching ["/d"] snapA) snapC))
    as Hsame by (vm_compute; reflexivity).
  pose proof (eq_trans (eq_sym HB)
                (eq_trans (f_equal (replayer _) Hsame) HC)) as Heq.
  apply (f_equal (λ m : gmap string FileInfo, m !! "/d/b")) in Heq.
  vm_compute in Heq. discriminate.
Qed.

(** C7 (the code departs from it).  On an event whose metadata is nil,
    as the Create event of a child whose [Info] call failed is,
    [IsDirEvent] passes its guard, which tests the event pointer, and
    panics on the method call. *)
Theorem IsDirEvent_nil_FileInfo_panics :
  IsDirEvent (Some (mkEvent None "/d/x" Create)) = ([], inl NilDeref)
  ∧ IsDirEvent None = ([], inr false)
  ∧ (∀ st p op,
        IsDirEvent (Some (mkEvent (Some st) p op)) = ([], inr (IsDir st))).
Proof. by repeat split. Qed.

(** C8 (the code departs from it).  The child [/d/x] whose [Info] call
    fails is not left out of the listing: its path is entered with nil
    metadata.  The listing is not aborted; [/d] and [/d/y] have their
    entries. *)
Theorem listForName_enters_failed_child :
  ∃ list,
    listForName joinPath fsRace "/d" = OK list
    ∧ list !! "/d/x" = Some None
    ∧ list !! "/d/y" = Some (Some (mkStat 100 10 false 1 6))
    ∧ list !! "/d" = Some (Some (mkStat 100 4096 true 1 2))
    ∧ size list = 3%nat.
Proof. eexists. split; [reflexivity|]. vm_compute. by repeat split. Qed.

(** The nil entry reaches the diff: the first cycle after the listing
    sends a Create event without metadata, and a cycle that finds the
    nil entry in both snapshots panics at step 3. *)
Lemma nil_entry_panics :
  ∀ list, listForName joinPath fsRace "/d" = OK list →
    sent (pollEvents parentDir ascending
            (watching ["/d"] (<["/d" := directory 2 100]> ∅)) list)
    = [mkEvent (regular 6 100 10) "/d/y" Create;
       mkEvent None "/d/x" Create]
    ∧ ending (pollEvents parentDir ascending (watching ["/d"] list) list)
      = inl NilDeref.
Proof.
  intros list Hlist. vm_compute in Hlist. injection Hlist as <-.
  vm_compute. by split.
Qed.

(** C9.  Every event a cycle sends, whether the cycle runs to its end,
    is interrupted by shutdown or panics, has exactly one flag of the
    vocabulary set, one of Create, Remove, Modify, Rename and Move; the
    Chmod flag is never set. *)
Theorem pollEvents_single_kind Dir rangeFiles w curr :
  Forall singleKind (sent (pollEvents Dir rangeFiles w curr)).
Proof.
  eapply Forall_impl; [apply pollEvents_ops|]. apply singleKind_of_op.
Qed.

(** C10.  The events a cycle sends come in four phases, in this order:
    the Modify events, the coalesced Rename and Move events, the Create
    events, the Remove events. *)
Theorem pollEvents_phase_order Dir rangeFiles w curr :
  inPhases (sent (pollEvents Dir rangeFiles w curr)).
Proof. apply pollEvents_inPhases. Qed.

(** A cycle with all four phases: [/d] and [/e] are watched; [m] was
    rewritten, [a] renamed to [b], [x] moved to [/e], [n] created and [z]
    deleted. *)
Example cycle_all_phases :
  let previous : gmap string FileInfo :=
    <["/d" := directory 2 100]> (<["/e" := directory 3 100]>
    (<["/d/a" := regular 5 100 10]> (<["/d/m" := regular 6 100 10]>
    (<["/d/x" := regular 7 100 10]> (<["/d/z" := regular 8 100 10]> ∅))))) in
  let current : gmap string FileInfo :=
    <["/d" := directory 2 100]> (<["/e" := directory 3 100]>
    (<["/d/b" := regular 5 100 10]> (<["/d/m" := regular 6 150 12]>
    (<["/e/x" := regular 7 100 10]> (<["/d/n" := regular 9 150 0]> ∅))))) in
  pollEvents parentDir ascending (watching ["/d"; "/e"] previous) current
  = ([mkEvent (regular 6 150 12) "/d/m" Modify;
      mkEvent (regular 5 100 10) "/d/a" Rename;
      mkEvent (regular 7 100 10) "/d/x" Move;
      mkEvent (regular 9 150 0) "/d/n" Create;
      mkEvent (regular 8 100 10) "/d/z" Remove],
     inr tt).
Proof. vm_compute. reflexivity. Qed.

(** ** The theorems at concrete snapshots *)


(** C4, amended, at a rename inside [/d] ([snapA] to [snapB]) and at a
    move from [/d] to [/e] ([snapE] to [snapF]), the latter enumerated in
    descending order. *)
Lemma pollEvents_coalesces_pair_witness :
  (ending (pollEvents parentDir ascending (watching ["/d"] snapA) snapB) = inr tt
   ∧ filter (λ ev, e_Path ev = "/d/a")
            (sent (pollEvents parentDir ascending (watching ["/d"] snapA) snapB))
     = [mkEvent (regular 5 100 10) "/d/a"
          (if bool_decide (parentDir "/d/a" = parentDir "/d/b")
           then Rename else Move)]
   ∧ Forall (λ ev, e_Path ev ≠ "/d/b")
            (sent (pollEvents parentDir ascending (watching ["/d"] snapA) snapB)))
  ∧ (ending (pollEvents parentDir descending (watching ["/d"; "/e"] snapE) snapF)
     = inr tt
     ∧ filter (λ ev, e_Path ev = "/d/a")
              (sent (pollEvents parentDir descending
                       (watching ["/d"; "/e"] snapE) snapF))
       = [mkEvent (regular 5 100 10) "/d/a"
            (if bool_decide (parentDir "/d/a" = parentDir "/e/a")
             then Rename else Move)]
     ∧ Forall (λ ev, e_Path ev ≠ "/e/a")
              (sent (pollEvents parentDir descending
                       (watching ["/d"; "/e"] snapE) snapF))).
Proof.
  split.
  - apply (pollEvents_coalesces_pair parentDir ascending ascending_perm
             (watching ["/d"] snapA) snapB
             "/d/a" (regular 5 100 10) "/d/b" (regular 5 100 10)).
    + reflexivity.
    + apply (bool_decide_unpack _). vm_compute. exact I.
    + vm_compute. reflexivity.
    + vm_compute. reflexivity.
    + vm_compute. reflexivity.
    + vm_compute. reflexivity.
    + vm_compute. reflexivity.
    + change (map_Forall
                (λ fp fi, files (watching ["/d"] snapA) !! fp = None →
                          SameFile (regular 5 100 10) fi = true → fp = "/d/b")
                snapB).
      apply (bool_decide_unpack _). vm_compute. exact I.
    + change (map_Forall
                (λ fp fi, snapB !! fp = None →
                          SameFile fi (regular 5 100 10) = true → fp = "/d/a")
                (files (watching ["/d"] snapA))).
      apply (bool_decide_unpack _). vm_compute. exact I.
  - apply (pollEvents_coalesces_pair parentDir descending descending_perm
             (watching ["/d"; "/e"] snapE) snapF
             "/d/a" (regular 5 100 10) "/e/a" (regular 5 100 10)).
    + reflexivity.
    + apply (bool_decide_unpack _). vm_compute. exact I.
    + vm_compute. reflexivity.
    + vm_compute. reflexivity.
    + vm_compute. reflexivity.
    + vm_compute. reflexivity.
    + vm_compute. reflexivity.
    + change (map_Forall
                (λ fp fi, files (watching ["/d"; "/e"] snapE) !! fp = None →
                          SameFile (regular 5 100 10) fi = true → fp = "/e/a")
                snapF).
      apply (bool_decide_unpack _). vm_compute. exact I.
    + change (map_Forall
                (λ fp fi, snapF !! fp = None →
                          SameFile fi (regular 5 100 10) = true → fp = "/d/a")
                (files (watching ["/d"; "/e"] snapE))).
      apply (bool_decide_unpack _). vm_compute. exact I.
Defined.

(** C5, amended, at [snapP], [snapQ], with a replayer that ignores Rename
    and Move events. *)
Lemma replay_pollEvents_witness :
  replay (λ _ S, S) snapP
         (sent (pollEvents parentDir ascending (watching ["/d"] snapP) snapQ))
  = snapQ.
Proof.
  apply (replay_pollEvents parentDir ascending ascending_perm (λ _ S, S)
           (watching ["/d"] snapP) snapQ).
  - reflexivity.
  - apply (bool_decide_unpack _). vm_compute. exact I.
  - intros removeFp removeFi createFp createFi Hr Hrc Hc Hcf.
    revert createFp createFi Hc Hcf. revert removeFp removeFi Hr Hrc.
    change (map_Forall
              (λ removeFp removeFi,
                 snapQ !! removeFp = None →
                 map_Forall
                   (λ createFp createFi,
                      files (watching ["/d"] snapP) !! createFp = None →
                      SameFile removeFi createFi = false)
                   snapQ)
              (files (watching ["/d"] snapP))).
    apply (bool_decide_unpack _). vm_compute. exact I.
  - change (bothForall (λ _ latestFi currFi,
                          changed latestFi currFi = false → latestFi = currFi)
                       (files (watching ["/d"] snapP)) snapQ).
    apply (bool_decide_unpack _). vm_compute. exact I.
Defined.

(** ** event.go: rendering and matching *)

(** X1.  [Op.String] is the names of the flags set in [op], in the order
    Create, Remove, Modify, Rename, Chmod, Move, joined by a bar, with no
    bar in front; bits outside the vocabulary are ignored. *)
Theorem Op_String_joined (op : Op) :
  Op_String op = String.concat "|" (setNames op).
Proof.
  unfold Op_String, setNames, opNames. simpl flat_map. unfold fst, snd.
  destruct (Z.land op Create =? Create), (Z.land op Remove =? Remove),
    (Z.land op Modify =? Modify), (Z.land op Rename =? Rename),
    (Z.land op Chmod =? Chmod), (Z.land op Move =? Move); reflexivity.
Qed.

(** X2.  [HasOps] is true exactly when the event is not nil and one of
    the given ops shares a bit with the event's op; so it is false on a
    nil event and on no ops. *)
Theorem HasOps_iff (e : option Event) (ops : list Op) :
  HasOps e ops = true
  ↔ ∃ ev op, e = Some ev ∧ op ∈ ops ∧ Z.land (e_Op ev) op ≠ 0.
Proof.
  destruct e as [ev|]; simpl.
  - induction ops as [|op ops IH]; simpl.
    + split; [done|]. intros (? & ? & _ & Hin & _). by apply elem_of_nil in Hin.
    + destruct (Z.land (e_Op ev) op =? 0) eqn:Hop; simpl.
      * rewrite IH. apply Z.eqb_eq in Hop. split.
        -- intros (ev' & op' & Hev & Hin & Hne). exists ev', op'.
           split; [done|]. split; [by right|done].
        -- intros (ev' & op' & [= <-] & Hin & Hne). exists ev, op'.
           split; [done|]. split; [|done].
           apply elem_of_cons in Hin as [->|Hin]; [done|done].
      * apply Z.eqb_neq in Hop. split; [|done]. intros _.
        exists ev, op. split; [done|]. split; [left|done].
  - split; [done|]. by intros (? & ? & ? & _).
Qed.

(** X3.  Every event a cycle sends renders as one flag name, with no
    bar, and matches its own op under [HasOps]. *)
Theorem pollEvents_labels Dir rangeFiles w curr :
  Forall (λ ev, Op_String (e_Op ev)
                  ∈ ["CREATE"; "REMOVE"; "MODIFY"; "RENAME"; "MOVE"]
                ∧ HasOps (Some ev) [e_Op ev] = true)
         (sent (pollEvents Dir rangeFiles w curr)).
Proof.
  eapply Forall_impl; [apply pollEvents_ops|].
  intros ev Hin. unfold HasOps.
  repeat (apply elem_of_cons in Hin as [-> | Hin]);
    try (split; [vm_compute; set_solver|by vm_compute]).
  by apply elem_of_nil in Hin.
Qed.

(** ** watch.go: calls to [Start] and [Close] in sequence *)

(** X4.  A second [Close] changes nothing, in whatever state the first
    one found the watcher. *)
Theorem Close_idempotent (w : Watcher) : Close (Close w) = Close w.
Proof.
  unfold Close at 2 3, CompareAndSwap.
  destruct (running w =? 0) eqn:Hr; simpl.
  - reflexivity.
  - apply Close_taken. by apply Z.eqb_neq.
Qed.

(** X5.  A second [Start] returns [ErrWatcherStarted] and changes
    nothing, whatever the first one returned. *)
Theorem Start_twice (w : Watcher) :
  Start (Start w).1 = ((Start w).1, Some ErrWatcherStarted).
Proof.
  apply Start_taken. unfold Start, CompareAndSwap.
  destruct (running w =? 0) eqn:Hr; simpl.
  - by destruct (closed w).
  - by apply Z.eqb_neq.
Qed.

(** X6.  [Start] after [Close] returns [ErrWatcherStarted], not
    [ErrWatcherClosed], and launches no loop. *)
Theorem Start_after_Close (w : Watcher) :
  Start (Close w) = (Close w, Some ErrWatcherStarted).
Proof.
  apply Start_taken. unfold Close, CompareAndSwap.
  destruct (running w =? 0) eqn:Hr; simpl; [done|]. by apply Z.eqb_neq.
Qed.

(** ** watch.go: the registry operations *)

Lemma set_files_same w : set_files (files w) w = w.
Proof. by destruct w. Qed.

Lemma set_names_same w : set_names (names w) w = w.
Proof. by destruct w. Qed.

Lemma foldl_insert_union (l : list (string * FileInfo))
    (m : gmap string FileInfo) :
  NoDup l.*1 → foldl (λ m kv, <[kv.1 := kv.2]> m) m l = list_to_map l ∪ m.
Proof.
  revert m. induction l as [|[k v] l IH]; intros m Hnd.
  - simpl. by rewrite (left_id_L ∅ (∪)).
  - rewrite fmap_cons in Hnd. apply NoDup_cons in Hnd as [Hk Hnd].
    rewrite list_to_map_cons.
    change (foldl (λ m kv, <[kv.1 := kv.2]> m) m ((k, v) :: l))
      with (foldl (λ m kv, <[kv.1 := kv.2]> m) (<[k := v]> m) l).
    rewrite IH by done. rewrite <- insert_union_l. symmetry.
    apply insert_union_r. by apply not_elem_of_list_to_map_1.
Qed.

Lemma foldl_set_files (f : gmap string FileInfo → string * FileInfo →
                           gmap string FileInfo) l w :
  foldl (λ w kv, set_files (f (files w) kv) w) w l
  = set_files (foldl f (files w) l) w.
Proof.
  revert w. induction l as [|kv l IH]; intros w; simpl.
  - by rewrite set_files_same.
  - by rewrite IH.
Qed.

Section Registry.
Variable Dir : string → string.
Variable Join : string → string → string.
Variable rangeFiles :
  rangeSite → gmap string FileInfo → list (string * FileInfo).
Hypothesis rangeFiles_perm : ∀ site m, rangeFiles site m ≡ₚ map_to_list m.

Lemma range_union site (fl m : gmap string FileInfo) :
  foldl (λ m kv, <[kv.1 := kv.2]> m) m (rangeFiles site fl) = fl ∪ m.
Proof.
  rewrite foldl_insert_union by (by apply range_NoDup).
  f_equal.
  rewrite (list_to_map_proper (rangeFiles site fl) (map_to_list fl));
    [apply list_to_map_to_list|by apply range_NoDup|apply rangeFiles_perm].
Qed.

(** X7.  [Add] returns an error exactly when the watcher is closed,
    the path cannot be statted, or it is a directory that cannot be
    read; and then it leaves the watcher as it was. *)
Theorem Add_fails_iff fs w name :
  (is_Some (Add Join rangeFiles fs w name).2
   ↔ closed w = true
     ∨ (∃ err, Stat fs name = Fail err)
     ∨ (∃ stat err, Stat fs name = OK stat ∧ IsDir stat = true
                    ∧ ReadDir fs name = Fail err))
  ∧ (is_Some (Add Join rangeFiles fs w name).2 →
     (Add Join rangeFiles fs w name).1 = w).
Proof.
  unfold Add, listForName. destruct (closed w); simpl.
  { split; [|done]. split; [by left|eauto]. }
  destruct (Stat fs name) as [stat|e] eqn:Hstat; simpl.
  - destruct (IsDir stat) eqn:Hdir; simpl.
    + destruct (ReadDir fs name) as [entries|e] eqn:Hread; simpl.
      * split; [|by intros [? ?]]. split; [by intros [? ?]|].
        intros [?|[[? ?]|(? & ? & ? & ? & ?)]]; done.
      * split; [|done]. split; [|eauto]. intros _. right; right. eauto.
    + split; [|by intros [? ?]]. split; [by intros [? ?]|].
      intros [?|[[? ?]|(? & ? & [= <-] & ? & ?)]]; [done..|congruence].
  - split; [|done]. split; [|eauto]. intros _. right; left. eauto.
Qed.

Lemma Add_open fs w name fileList :
  closed w = false → listForName Join fs name = OK fileList →
  Add Join rangeFiles fs w name
  = (set_files (fileList ∪ files w) (set_names ({[name]} ∪ names w) w),
     None).
Proof.
  intros Hopen Hlist. unfold Add. rewrite Hopen, Hlist. f_equal.
  rewrite (foldl_set_files (λ m kv, <[kv.1 := kv.2]> m)). simpl.
  by rewrite range_union.
Qed.

(** X8.  [Add] on an open watcher whose path lists registers the path
    as a target and merges the listing into the snapshot: the listed
    entries replace those of the same path, all others stay, in
    whatever order the listing is enumerated. *)
Theorem Add_merges fs w name fileList :
  closed w = false → listForName Join fs name = OK fileList →
  Add Join rangeFiles fs w name
  = (set_files (fileList ∪ files w) (set_names ({[name]} ∪ names w) w),
     None).
Proof. apply Add_open. Qed.

(** X9.  Adding the same path again on an unchanged file system
    changes nothing: [Add] is idempotent. *)
Theorem Add_idempotent fs w name :
  Add Join rangeFiles fs (Add Join rangeFiles fs w name).1 name
  = Add Join rangeFiles fs w name.
Proof.
  destruct (closed w) eqn:Hopen.
  { unfold Add. by repeat (rewrite ?Hopen; simpl). }
  destruct (listForName Join fs name) as [fileList|err] eqn:Hlist.
  - rewrite (Add_open fs w name fileList) by done. simpl.
    rewrite (Add_open fs _ name fileList) by done. f_equal.
    destruct w; unfold set_files, set_names; simpl. f_equal.
    + by rewrite (assoc_L (∪)), (idemp_L (∪)).
    + by rewrite (assoc_L (∪)), (idemp_L (∪)).
  - unfold Add. by repeat (rewrite ?Hopen, ?Hlist; simpl).
Qed.

(** *** [doRemove] *)

Lemma foldl_delete_files name l w :
  foldl (λ w (kv : string * FileInfo),
           if bool_decide (Dir kv.1 = name)
           then set_files (delete kv.1 (files w)) w else w) w l
  = set_files (foldl (λ m (kv : string * FileInfo),
                        if bool_decide (Dir kv.1 = name)
                        then delete kv.1 m else m) (files w) l) w.
Proof.
  revert w. induction l as [|kv l IH]; intros w; simpl.
  - by rewrite set_files_same.
  - rewrite IH. by destruct (bool_decide (Dir kv.1 = name)).
Qed.

Lemma foldl_delete_lookup name (l : list (string * FileInfo))
    (m : gmap string FileInfo) p :
  foldl (λ m (kv : string * FileInfo),
           if bool_decide (Dir kv.1 = name) then delete kv.1 m else m) m l
    !! p
  = if bool_decide (Dir p = name) && bool_decide (p ∈ l.*1) then None
    else m !! p.
Proof.
  clear Join. revert m. induction l as [|[k v] l IH]; intros m.
  - change (m !! p = if bool_decide (Dir p = name)
                        && bool_decide (p ∈ @nil string)
                     then None else m !! p).
    rewrite (bool_decide_eq_false_2 (p ∈ [])) by apply not_elem_of_nil.
    by rewrite andb_false_r.
  - change (foldl (λ m (kv : string * FileInfo),
                     if bool_decide (Dir kv.1 = name)
                     then delete kv.1 m else m) m ((k, v) :: l))
      with (foldl (λ m (kv : string * FileInfo),
                     if bool_decide (Dir kv.1 = name)
                     then delete kv.1 m else m)
                  (if bool_decide (Dir k = name) then delete k m else m) l).
    rewrite IH, fmap_cons. cbn [fst].
    destruct (decide (p = k)) as [->|Hne].
    + rewrite (bool_decide_eq_true_2 (k ∈ k :: l.*1)) by left.
      rewrite andb_true_r.
      destruct (bool_decide (Dir k = name)) eqn:Hb; cbn [andb].
      * rewrite lookup_delete_eq. by destruct (bool_decide (k ∈ l.*1)).
      * done.
    + assert (bool_decide (p ∈ k :: l.*1) = bool_decide (p ∈ l.*1)) as ->.
      { apply bool_decide_ext. rewrite elem_of_cons. tauto. }
      destruct (bool_decide (Dir p = name) && bool_decide (p ∈ l.*1));
        [done|].
      destruct (bool_decide (Dir k = name)); [|done].
      apply lookup_delete_ne. congruence.
Qed.

Lemma doRemove_cases {T R} w name :
  doRemove (T:=T) (R:=R) Dir rangeFiles w name
  = match files w !! name with
    | None => ([], inr (set_names (names w ∖ {[name]}) w))
    | Some None => ([], inl NilDeref)
    | Some (Some st) =>
        ([], inr (set_files
                    (if IsDir st
                     then filter (λ kv, kv.1 ≠ name ∧ Dir kv.1 ≠ name)
                                 (files w)
                     else delete name (files w))
                    (set_names (names w ∖ {[name]}) w)))
    end.
Proof.
  unfold doRemove. simpl files.
  destruct (files w !! name) as [[st|]|] eqn:Hname; [|done..].
  simpl. destruct (IsDir st) eqn:Hdir; simpl; [|done].
  do 2 f_equal.
  rewrite foldl_delete_files. simpl files.
  match goal with |- set_files ?X _ = set_files ?F _ =>
    assert (X = F) as ->; [|reflexivity]
  end.
  apply map_eq. intros p.
  rewrite foldl_delete_lookup. apply option_eq. intros v.
  rewrite map_lookup_filter_Some. simpl.
  destruct (decide (p = name)) as [->|Hne].
  - rewrite lookup_delete_eq.
    destruct (_ && _); split; try done; by intros (_ & ? & _).
  - rewrite lookup_delete_ne by done.
    destruct (bool_decide (Dir p = name)) eqn:Hd; simpl.
    + apply bool_decide_eq_true in Hd.
      destruct (bool_decide (p ∈ _)) eqn:Hin.
      * split; [done|]. by intros (_ & _ & ?).
      * apply bool_decide_eq_false in Hin. split; [|by intros (_ & _ & ?)].
        intros Hp. exfalso. apply Hin. apply list_elem_of_fmap.
        exists (p, v). split; [done|].
        apply (range_elem rangeFiles rangeFiles_perm).
        by rewrite lookup_delete_ne.
    + apply bool_decide_eq_false in Hd. split; [done|by intros [? _]].
Qed.

(** X10.  What [doRemove] does, by the entry the snapshot holds for the
    name.  No entry: only the target is dropped, and entries below the
    name stay.  An entry with nil metadata: the call panics.  A file:
    its entry goes.  A directory: its entry and every entry whose
    parent directory is the name go, and no other entry does, so
    entries further down stay. *)
Theorem doRemove_result {T R} w name :
  doRemove (T:=T) (R:=R) Dir rangeFiles w name
  = match files w !! name with
    | None => ([], inr (set_names (names w ∖ {[name]}) w))
    | Some None => ([], inl NilDeref)
    | Some (Some st) =>
        ([], inr (set_files
                    (if IsDir st
                     then filter (λ kv, kv.1 ≠ name ∧ Dir kv.1 ≠ name)
                                 (files w)
                     else delete name (files w))
                    (set_names (names w ∖ {[name]}) w)))
    end.
Proof. apply doRemove_cases. Qed.

(** X11.  A second [doRemove] of the same name changes nothing. *)
Theorem doRemove_idempotent w name w' :
  doRemove (T:=Empty_set) (R:=unit) Dir rangeFiles w name = ([], inr w') →
  doRemove (T:=Empty_set) (R:=unit) Dir rangeFiles w' name = ([], inr w').
Proof.
  clear Join. rewrite !doRemove_cases. intros Hfirst.
  assert (files w' !! name = None ∧ names w' = names w ∖ {[name]})
    as [Hgone Hnames].
  { destruct (files w !! name) as [[st|]|] eqn:Hname;
      [|done|]; injection Hfirst as <-; simpl.
    - split; [|done]. destruct (IsDir st).
      + apply map_lookup_filter_None. right. intros x _ [? _]. done.
      + apply lookup_delete_eq.
    - done. }
  rewrite Hgone.
  assert (names w' ∖ {[name]} = names w') as ->.
  { rewrite Hnames. apply set_eq. intros x.
    rewrite !elem_of_difference. tauto. }
  by rewrite set_names_same.
Qed.

(** X12.  [Remove] after [Add] restores the watcher.  For a watcher
    that is open, does not have the name as a target and holds no entry
    at or directly below the name, and a listing whose children lie
    directly below the name, removing the name just added gives back
    the watcher as it was before. *)
Theorem Remove_after_Add fs w name :
  closed w = false → name ∉ names w →
  (∀ fp, is_Some (files w !! fp) → fp ≠ name ∧ Dir fp ≠ name) →
  (∀ entries entry, ReadDir fs name = OK entries → entry ∈ entries →
      Join name (Name entry) ≠ name ∧ Dir (Join name (Name entry)) = name) →
  (Add Join rangeFiles fs w name).2 = None →
  Watcher_Remove Dir rangeFiles (Add Join rangeFiles fs w name).1 name
  = ([], inr (w, None)).
Proof.
  intros Hopen Hfresh Hclear Hbelow Hadded.
  destruct (listForName Join fs name) as [fileList|err] eqn:Hlist.
  2:{ unfold Add in Hadded. by rewrite Hopen, Hlist in Hadded. }
  rewrite (Add_open fs w name fileList) by done. simpl.
  unfold Watcher_Remove. simpl closed. rewrite Hopen.
  rewrite doRemove_cases. simpl files. simpl names.
  (* the listing: the name itself, and children directly below it *)
  unfold listForName in Hlist.
  destruct (Stat fs name) as [stat|] eqn:Hstat; [|done].
  assert (fileList !! name = Some (Some stat)
          ∧ (IsDir stat = false → fileList = {[name := Some stat]})
          ∧ (∀ fp, is_Some (fileList !! fp) → fp = name ∨ Dir fp = name))
    as (Hname & Hfile & Hkeys).
  { destruct (IsDir stat) eqn:Hdir; simpl in Hlist.
    - destruct (ReadDir fs name) as [entries|] eqn:Hread; [|done].
      injection Hlist as <-.
      specialize (Hbelow entries).
      assert (∀ entry, entry ∈ entries →
                Join name (Name entry) ≠ name
                ∧ Dir (Join name (Name entry)) = name) as Hb by eauto.
      clear Hbelow Hread. split; [|split; [done|]].
      + induction entries as [|e entries IH] using rev_ind.
        * apply lookup_insert_eq.
        * rewrite foldl_app. simpl. rewrite lookup_insert_ne.
          -- apply IH. intros entry Hin. apply Hb, elem_of_app. by left.
          -- apply Hb, elem_of_app. right. left.
      + induction entries as [|e entries IH] using rev_ind; intros fp.
        * simpl. intros [x Hx]. left.
          apply lookup_insert_Some in Hx as [[? _]|[_ Hx]]; [done|].
          by rewrite lookup_empty in Hx.
        * rewrite foldl_app. simpl. intros [x Hx].
          apply lookup_insert_Some in Hx as [[<- _]|[_ Hx]].
          -- right. apply Hb, elem_of_app. right. left.
          -- apply IH; [|eauto]. intros entry Hin.
             apply Hb, elem_of_app. by left.
    - injection Hlist as <-. split; [apply lookup_insert_eq|].
      split; [by rewrite insert_empty|].
      intros fp [x Hx]. left.
      apply lookup_insert_Some in Hx as [[? _]|[_ Hx]]; [done|].
      by rewrite lookup_empty in Hx. }
  assert (files w !! name = None) as Hnone.
  { apply eq_None_not_Some. intros Hsome. by destruct (Hclear name Hsome). }
  rewrite (lookup_union_Some_l _ _ _ _ Hname). simpl.
  assert (({[name]} ∪ names w) ∖ {[name]} = names w) as ->.
  { apply set_eq. intros x.
    rewrite elem_of_difference, elem_of_union, elem_of_singleton.
    split; [tauto|]. intros Hx. split; [by right|]. by intros ->. }
  assert ((if IsDir stat
           then filter (λ kv, kv.1 ≠ name ∧ Dir kv.1 ≠ name)
                       (fileList ∪ files w)
           else delete name (fileList ∪ files w)) = files w) as ->.
  { destruct (IsDir stat) eqn:Hdir.
    - apply map_eq. intros p. apply option_eq. intros v.
      rewrite map_lookup_filter_Some. simpl. split.
      + intros [Hp [Hn Hd]].
        apply lookup_union_Some_raw in Hp as [Hp|[_ Hp]]; [|done].
        destruct (Hkeys p) as [?|?]; [eauto|done..].
      + intros Hp. destruct (Hclear p) as [Hn Hd]; [eauto|].
        split; [|done]. apply lookup_union_Some_raw. right. split; [|done].
        apply eq_None_not_Some. intros Hsome.
        destruct (Hkeys p Hsome); done.
    - rewrite (Hfile eq_refl). rewrite <- insert_union_singleton_l.
      rewrite delete_insert_eq. by apply delete_id. }
  destruct w; done.
Qed.

(** X13.  [Close] on a watcher that was never started empties the
    registry, and from then on [Add] and [Remove] return
    [ErrWatcherClosed] and change nothing. *)
Theorem Close_then_registry_refuses fs w name :
  running w = 0 →
  names (Close w) = ∅ ∧ files (Close w) = ∅
  ∧ Add Join rangeFiles fs (Close w) name = (Close w, Some ErrWatcherClosed)
  ∧ Watcher_Remove Dir rangeFiles (Close w) name
    = ([], inr (Close w, Some ErrWatcherClosed)).
Proof.
  intros Hr. unfold Close, CompareAndSwap. rewrite Hr. simpl.
  by repeat split.
Qed.
End Registry.

(** ** watch.go: listing the targets *)

Section Listings.
Variable Dir : string → string.
Variable Join : string → string → string.
Variable rangeFiles :
  rangeSite → gmap string FileInfo → list (string * FileInfo).
Variable rangeNames : gset string → list string.
Hypothesis rangeFiles_perm : ∀ site m, rangeFiles site m ≡ₚ map_to_list m.
Hypothesis rangeNames_perm : ∀ s, rangeNames s ≡ₚ elements s.

Lemma children_keys entries (list : gmap string FileInfo) name p :
  is_Some (foldl
             (λ list dirEntry,
                let fp := Join name (Name dirEntry) in
                <[fp := match Info dirEntry with
                        | OK fi => Some fi
                        | Fail _ => None
                        end]> list)
             list entries !! p) →
  is_Some (list !! p)
  ∨ ∃ entry, entry ∈ entries ∧ p = Join name (Name entry).
Proof.
  induction entries as [|e entries IH] using rev_ind; [by left|].
  rewrite foldl_app. simpl. intros [x Hx].
  apply lookup_insert_Some in Hx as [[<- _]|[_ Hx]].
  - right. exists e. split; [|done]. apply elem_of_app. right. left.
  - destruct IH as [?|(entry & Hin & ->)]; [eauto|by left|].
    right. exists entry. split; [|done]. apply elem_of_app. by left.
Qed.

(** X14.  A listing goes one level deep: it holds the name itself and,
    for a directory, nothing but the children [ReadDir] returned; for a
    file it is the single entry of the name. *)
Theorem listForName_keys fs name list :
  listForName Join fs name = OK list →
  ∃ stat, Stat fs name = OK stat
    ∧ is_Some (list !! name)
    ∧ (IsDir stat = false → list = {[name := Some stat]})
    ∧ (∀ p, is_Some (list !! p) → p ≠ name →
         IsDir stat = true
         ∧ ∃ entries entry, ReadDir fs name = OK entries
             ∧ entry ∈ entries ∧ p = Join name (Name entry)).
Proof.
  unfold listForName. destruct (Stat fs name) as [stat|] eqn:Hstat; [|done].
  destruct (IsDir stat) eqn:Hdir; simpl.
  - destruct (ReadDir fs name) as [entries|] eqn:Hread; [|done].
    intros [= <-]. exists stat. split; [done|].
    split; [|split; [intros ?; congruence|]].
    + clear Hread. induction entries as [|e entries IH] using rev_ind.
      * simpl. rewrite lookup_insert_eq. eauto.
      * rewrite foldl_app. simpl.
        destruct (decide (Join name (Name e) = name)) as [->|Hne].
        -- rewrite lookup_insert_eq. eauto.
        -- by rewrite lookup_insert_ne.
    + intros p Hp Hne. split; [done|].
      apply children_keys in Hp as [[x Hx]|(entry & Hin & ->)].
      * apply lookup_insert_Some in Hx as [[? _]|[_ Hx]]; [done|].
        by rewrite lookup_empty in Hx.
      * by exists entries, entry.
  - intros [= <-]. exists stat. split; [done|].
    split; [rewrite lookup_insert_eq; eauto|].
    split; [by rewrite insert_empty|].
    intros p [x Hx] Hne.
    apply lookup_insert_Some in Hx as [[? _]|[_ Hx]]; [done|].
    by rewrite lookup_empty in Hx.
Qed.

Lemma listStep_open fs w l fileList :
  closed w = false →
  forRange l (listStep Dir Join rangeFiles fs) (w, fileList)
  = (listErrors Join fs l,
     inr (w, foldl (λ fileList name,
                      match listForName Join fs name with
                      | OK fl => fl ∪ fileList
                      | Fail _ => fileList
                      end) fileList l)).
Proof.
  intros Hopen. revert fileList.
  induction l as [|name l IH]; intros fileList; [done|].
  change (forRange (name :: l) (listStep Dir Join rangeFiles fs) (w, fileList))
    with (listStep Dir Join rangeFiles fs (w, fileList) name
          ≫= forRange l (listStep Dir Join rangeFiles fs)).
  set (rest := forRange l (listStep Dir Join rangeFiles fs)) in *.
  unfold listStep, listErrors. cbv beta iota. simpl omap. simpl foldl.
  destruct (listForName Join fs name) as [fl|err] eqn:Hlist.
  - rewrite (range_union rangeFiles rangeFiles_perm).
    simpl. subst rest. by rewrite IH.
  - rewrite (listForName_error _ _ _ _ Hlist). simpl.
    unfold send. rewrite Hopen. simpl. subst rest. by rewrite IH.
Qed.

Lemma listForAll_run fs w :
  closed w = false →
  listForAll Dir Join rangeFiles rangeNames fs w
  = (listErrors Join fs (rangeNames (names w)),
     inr (w, mergeListings Join fs (rangeNames (names w)))).
Proof. intros Hopen. unfold listForAll. by apply listStep_open. Qed.

(** X15.  On an open watcher [listForAll] goes through all targets:
    it sends the error of each target whose listing fails, in the order
    of the enumeration, does not stop at a failure, leaves the watcher
    as it was, and returns the other listings merged, a later listing
    replacing the entries of the same paths. *)
Theorem listForAll_open fs w :
  closed w = false →
  listForAll Dir Join rangeFiles rangeNames fs w
  = (listErrors Join fs (rangeNames (names w)),
     inr (w, mergeListings Join fs (rangeNames (names w)))).
Proof. apply listForAll_run. Qed.

Lemma mergeListings_from fs l (acc : gmap string FileInfo) p v :
  foldl (λ fileList name, match listForName Join fs name with
                          | OK fl => fl ∪ fileList
                          | Fail _ => fileList
                          end) acc l !! p = Some v →
  acc !! p = Some v
  ∨ ∃ name fl, name ∈ l ∧ listForName Join fs name = OK fl
               ∧ fl !! p = Some v.
Proof.
  induction l as [|name l IH] using rev_ind; [by left|].
  rewrite foldl_app. simpl.
  destruct (listForName Join fs name) as [fl|err] eqn:Hlist.
  - intros Hp. apply lookup_union_Some_raw in Hp as [Hp|[_ Hp]].
    + right. exists name, fl. split; [|done]. apply elem_of_app. right. left.
    + destruct (IH Hp) as [?|(n & fl' & Hin & ? & ?)]; [by left|].
      right. exists n, fl'. split; [|done]. apply elem_of_app. by left.
  - intros Hp. destruct (IH Hp) as [?|(n & fl' & Hin & ? & ?)]; [by left|].
    right. exists n, fl'. split; [|done]. apply elem_of_app. by left.
Qed.

Lemma mergeListings_has fs l (acc : gmap string FileInfo) name fl p :
  name ∈ l → listForName Join fs name = OK fl → is_Some (fl !! p) →
  is_Some (foldl (λ fileList name, match listForName Join fs name with
                                   | OK fl => fl ∪ fileList
                                   | Fail _ => fileList
                                   end) acc l !! p).
Proof.
  intros Hin Hlist Hp.
  induction l as [|n l IH] using rev_ind.
  { by apply elem_of_nil in Hin. }
  rewrite foldl_app. simpl.
  apply elem_of_app in Hin as [Hin|Hin].
  - specialize (IH Hin).
    destruct (listForName Join fs n) as [fl'|]; [|done].
    apply lookup_union_is_Some. by right.
  - apply list_elem_of_singleton in Hin as ->. rewrite Hlist.
    apply lookup_union_is_Some. by left.
Qed.

(** X16.  On an open watcher, every entry of the snapshot [listForAll]
    returns comes from the listing of a registered target, and every
    path that the listing of a registered target holds has an entry,
    also when the listings of other targets fail. *)
Theorem listForAll_entries fs w :
  closed w = false →
  ∃ fileList,
    ending (listForAll Dir Join rangeFiles rangeNames fs w)
    = inr (w, fileList)
    ∧ (∀ p v, fileList !! p = Some v →
         ∃ name fl, name ∈ names w ∧ listForName Join fs name = OK fl
                    ∧ fl !! p = Some v)
    ∧ (∀ name fl p, name ∈ names w → listForName Join fs name = OK fl →
         is_Some (fl !! p) → is_Some (fileList !! p)).
Proof.
  intros Hopen. rewrite listForAll_run by done.
  eexists. split; [done|]. unfold mergeListings. split.
  - intros p v Hp. apply mergeListings_from in Hp as [Hp|Hp].
    + by rewrite lookup_empty in Hp.
    + destruct Hp as (name & fl & Hin & ? & ?). exists name, fl.
      split; [|done]. rewrite rangeNames_perm in Hin.
      by apply elem_of_elements in Hin.
  - intros name fl p Hin. apply mergeListings_has.
    rewrite rangeNames_perm. by apply elem_of_elements.
Qed.
End Listings.

(** ** watch.go: quiet cycles and the states of a watcher *)

Section Ticks.
Variable Dir : string → string.
Variable Join : string → string → string.
Variable rangeFiles :
  rangeSite → gmap string FileInfo → list (string * FileInfo).
Variable rangeNames : gset string → list string.
Hypothesis rangeFiles_perm : ∀ site m, rangeFiles site m ≡ₚ map_to_list m.


(** X21.  One cycle of the scan loop on an open watcher, when every
    path that the stored snapshot and the fresh listing share has its
    metadata in both: the cycle does not panic, it sends the listing
    errors and the events of the stored snapshot against the fresh
    listing, and then stores the fresh listing, whatever was stored
    before; the targets and the rest of the watcher stay. *)
Theorem tick_cycle fs w :
  closed w = false →
  statted (files w) (mergeListings Join fs (rangeNames (names w))) →
  tick Dir Join rangeFiles rangeNames fs w
  = (listErrors Join fs (rangeNames (names w)),
     sent (pollEvents Dir rangeFiles w
             (mergeListings Join fs (rangeNames (names w)))),
     Some (set_files (mergeListings Join fs (rangeNames (names w))) w)).
Proof.
  intros Hopen Hmeta. unfold tick.
  rewrite (listForAll_run Dir Join rangeFiles rangeNames rangeFiles_perm)
    by done.
  by rewrite (pollEvents_diffEvents Dir rangeFiles rangeFiles_perm) by done.
Qed.

(** *** The states a watcher goes through *)

Lemma Add_lifecycle fs w name :
  lifecycleOf (Add Join rangeFiles fs w name).1 = lifecycleOf w.
Proof.
  unfold Add. destruct (closed w) eqn:Hc; [done|].
  destruct (listForName Join fs name); [|done]. simpl.
  by rewrite (foldl_set_files (λ m kv, <[kv.1 := kv.2]> m)).
Qed.

Lemma Remove_lifecycle w name out w' err :
  Watcher_Remove Dir rangeFiles w name = (out, inr (w', err)) →
  lifecycleOf w' = lifecycleOf w.
Proof.
  unfold Watcher_Remove. destruct (closed w) eqn:Hc.
  { by intros [= _ <- _]. }
  rewrite doRemove_cases by done.
  destruct (files w !! name) as [[st|]|]; simpl; [|done|];
    by intros [= _ <- _].
Qed.

Lemma tick_lifecycle fs w w' :
  (tick Dir Join rangeFiles rangeNames fs w).2 = Some w' →
  lifecycleOf w' = lifecycleOf w.
Proof.
  unfold tick.
  pose proof (listForAll_keeps Dir Join rangeFiles rangeNames fs w) as Hkeep.
  destruct (listForAll Dir Join rangeFiles rangeNames fs w)
    as [errs [[|[w1 curr]]|[w1 curr]]]; simpl in *; [done| |]; subst w1.
  - destruct (pollEvents Dir rangeFiles w curr) as [evs [[|[]]|[]]];
      simpl; [done|by intros [= <-]..].
  - destruct (pollEvents Dir rangeFiles w curr) as [evs [[|[]]|[]]];
      simpl; [done|by intros [= <-]..].
Qed.

Lemma lifecycle_state w w' :
  lifecycleOf w' = lifecycleOf w →
  (idle w → idle w') ∧ (scanning w → scanning w') ∧ (shut w → shut w').
Proof.
  unfold lifecycleOf, idle, scanning, shut. intros [= -> -> -> -> ->]. done.
Qed.

(** X22.  Whatever calls to [Start], [Close], [Add] and [Remove] a
    program makes on a new watcher, and whenever the ticker fires, a
    watcher that has not panicked is idle, scanning, or shut with an
    empty registry.  So at most one scan loop is ever live, [Start]
    never returns [ErrWatcherClosed], and while a scan loop is live
    shutdown has not been signalled: none of its sends is abandoned. *)
Theorem api_states (calls : list apiCall) (w : Watcher) :
  apiRun Dir Join rangeFiles rangeNames NewWatcher calls = Some w →
  (idle w ∨ scanning w ∨ (shut w ∧ names w = ∅ ∧ files w = ∅))
  ∧ (wg w ≤ 1)%nat
  ∧ (Start w).2 ≠ Some ErrWatcherClosed
  ∧ (wg w ≠ 0%nat → closed w = false).
Proof.
  intros Hrun.
  assert (idle w ∨ scanning w ∨ (shut w ∧ names w = ∅ ∧ files w = ∅))
    as Hstate.
  { revert w Hrun. unfold apiRun.
    induction calls as [|c calls IH] using rev_ind; intros w Hrun.
    { injection Hrun as <-. left. by repeat split. }
    rewrite foldl_app in Hrun. simpl in Hrun.
    destruct (foldl _ (Some NewWatcher) calls) as [w0|] eqn:Hprev;
      [|done].
    specialize (IH w0 eq_refl). simpl in Hrun.
    destruct c as [| |fs name|name|fs]; simpl in Hrun.
    - injection Hrun as <-. destruct IH as [Hi|[Hs|[Hs ?]]].
      + right; left. by apply idle_Start.
      + right; left. pose proof (scanning_step w0 CallStart Hs) as E.
        simpl in E. by rewrite E.
      + right; right. pose proof (shut_step w0 CallStart Hs) as E.
        simpl in E. by rewrite E.
    - injection Hrun as <-. destruct IH as [Hi|[Hs|[Hs ?]]].
      + right; right. split; [by apply idle_Close|].
        destruct Hi as (Hr & _). unfold Close, CompareAndSwap.
        by rewrite Hr.
      + right; left. pose proof (scanning_step w0 CallClose Hs) as E.
        simpl in E. by rewrite E.
      + right; right. pose proof (shut_step w0 CallClose Hs) as E.
        simpl in E. by rewrite E.
    - injection Hrun as <-.
      destruct (lifecycle_state w0 _ (Add_lifecycle fs w0 name))
        as (Hi & Hs & Hx).
      destruct IH as [?|[?|[Hshut [Hn Hf]]]]; [by left; auto|by right; left; auto|].
      right; right. unfold Add.
      destruct Hshut as (Hr' & Hw' & Hc' & He' & Hx').
      rewrite Hc'. simpl. by repeat split.
    - destruct (Watcher_Remove Dir rangeFiles w0 name)
        as [out [e|[w1 err]]] eqn:Hrem; [done|]. injection Hrun as <-.
      destruct (lifecycle_state w0 _ (Remove_lifecycle _ _ _ _ _ Hrem))
        as (Hi & Hs & Hx).
      destruct IH as [?|[?|[Hshut [Hn Hf]]]]; [by left; auto|by right; left; auto|].
      right; right. unfold Watcher_Remove in Hrem.
      destruct Hshut as (Hr' & Hw' & Hc' & He' & Hx').
      rewrite Hc' in Hrem. injection Hrem as _ <- _. by repeat split.
    - case_bool_decide as Hwg.
      + by injection Hrun as <-.
      + destruct (lifecycle_state w0 _ (tick_lifecycle fs w0 w Hrun))
          as (Hi & Hs & Hx).
        destruct IH as [?|[?|[Hshut _]]];
          [by left; auto|by right; left; auto|].
        by destruct Hshut as (_ & ? & _). }
  split; [done|].
  destruct Hstate as [Hi|[Hs|[Hs _]]].
  - destruct Hi as (Hr & Hw & Hc & _). rewrite Hw.
    split; [lia|]. split; [|done].
    unfold Start, CompareAndSwap. rewrite Hr. simpl. by rewrite Hc.
  - destruct Hs as (Hr & Hw & Hc & _). rewrite Hw.
    split; [lia|]. split; [|done].
    rewrite Start_taken; [done|lia].
  - destruct Hs as (Hr & Hw & Hc & _). rewrite Hw.
    split; [lia|]. split; [|done].
    rewrite Start_taken; [done|lia].
Qed.
End Ticks.

(** ** The properties at concrete watchers and file systems *)

(** X8 at [fsQuiet]: adding [/d] beside the watched file [/e]. *)
Lemma Add_merges_witness :
  Add joinPath ascending fsQuiet (watching ["/e"] snapOther) "/d"
  = (set_files (listQuiet ∪ files (watching ["/e"] snapOther))
       (set_names ({["/d"]} ∪ names (watching ["/e"] snapOther))
          (watching ["/e"] snapOther)),
     None).
Proof.
  apply (Add_merges joinPath ascending ascending_perm fsQuiet
           (watching ["/e"] snapOther) "/d" listQuiet).
  - reflexivity.
  - vm_compute. reflexivity.
Defined.

(** X9 at [fsQuiet]: adding [/d] twice. *)
Lemma Add_idempotent_witness :
  Add joinPath ascending fsQuiet
      (Add joinPath ascending fsQuiet (watching ["/e"] snapOther) "/d").1 "/d"
  = Add joinPath ascending fsQuiet (watching ["/e"] snapOther) "/d".
Proof.
  exact (Add_idempotent joinPath ascending ascending_perm fsQuiet
           (watching ["/e"] snapOther) "/d").
Defined.

(** X10 at the directory [/d] with its child [/d/y]. *)
Lemma doRemove_result_witness :
  doRemove (T:=Empty_set) (R:=unit) parentDir ascending
           (watching ["/d"] listQuiet) "/d"
  = match files (watching ["/d"] listQuiet) !! "/d" with
    | None =>
        ([], inr (set_names (names (watching ["/d"] listQuiet) ∖ {["/d"]})
                    (watching ["/d"] listQuiet)))
    | Some None => ([], inl NilDeref)
    | Some (Some st) =>
        ([], inr (set_files
                    (if IsDir st
                     then filter (λ kv, kv.1 ≠ "/d" ∧ parentDir kv.1 ≠ "/d")
                                 (files (watching ["/d"] listQuiet))
                     else delete "/d" (files (watching ["/d"] listQuiet)))
                    (set_names (names (watching ["/d"] listQuiet) ∖ {["/d"]})
                       (watching ["/d"] listQuiet))))
    end.
Proof.
  exact (doRemove_result parentDir ascending ascending_perm
           (T:=Empty_set) (R:=unit) (watching ["/d"] listQuiet) "/d").
Defined.

(** X11 at the directory [/d]: the first removal leaves a new watcher. *)
Lemma doRemove_idempotent_witness :
  doRemove (T:=Empty_set) (R:=unit) parentDir ascending NewWatcher "/d"
  = ([], inr NewWatcher).
Proof.
  apply (doRemove_idempotent parentDir ascending ascending_perm
           (watching ["/d"] listQuiet) "/d" NewWatcher).
  vm_compute. reflexivity.
Defined.

(** X12 at [fsQuiet]: adding and removing [/d] beside the watched [/e]. *)
Lemma Remove_after_Add_witness :
  Watcher_Remove parentDir ascending
    (Add joinPath ascending fsQuiet (watching ["/e"] snapOther) "/d").1 "/d"
  = ([], inr (watching ["/e"] snapOther, None)).
Proof.
  apply (Remove_after_Add parentDir joinPath ascending ascending_perm fsQuiet
           (watching ["/e"] snapOther) "/d").
  - reflexivity.
  - apply (bool_decide_unpack _). vm_compute. exact I.
  - intros fp [fi Hfi]. revert fp fi Hfi.
    change (map_Forall (λ fp (_ : FileInfo), fp ≠ "/d" ∧ parentDir fp ≠ "/d")
              (files (watching ["/e"] snapOther))).
    apply (bool_decide_unpack _). vm_compute. exact I.
  - intros entries entry Hread Hin. vm_compute in Hread.
    injection Hread as <-. apply list_elem_of_singleton in Hin as ->.
    apply (bool_decide_unpack _). vm_compute. exact I.
  - vm_compute. reflexivity.
Defined.

(** X13 at a watcher of [/d] that was never started. *)
Lemma Close_then_registry_refuses_witness :
  names (Close (watching ["/d"] listQuiet)) = ∅
  ∧ files (Close (watching ["/d"] listQuiet)) = ∅
  ∧ Add joinPath ascending fsQuiet (Close (watching ["/d"] listQuiet)) "/d"
    = (Close (watching ["/d"] listQuiet), Some ErrWatcherClosed)
  ∧ Watcher_Remove parentDir ascending (Close (watching ["/d"] listQuiet)) "/d"
    = ([], inr (Close (watching ["/d"] listQuiet), Some ErrWatcherClosed)).
Proof.
  apply (Close_then_registry_refuses parentDir joinPath ascending fsQuiet
           (watching ["/d"] listQuiet) "/d").
  reflexivity.
Defined.

(** X14 at [fsQuiet]: the listing of [/d]. *)
Lemma listForName_keys_witness :
  ∃ stat, Stat fsQuiet "/d" = OK stat
    ∧ is_Some (listQuiet !! "/d")
    ∧ (IsDir stat = false → listQuiet = {["/d" := Some stat]})
    ∧ (∀ p, is_Some (listQuiet !! p) → p ≠ "/d" →
         IsDir stat = true
         ∧ ∃ entries entry, ReadDir fsQuiet "/d" = OK entries
             ∧ entry ∈ entries ∧ p = joinPath "/d" (Name entry)).
Proof.
  apply (listForName_keys joinPath fsQuiet "/d" listQuiet).
  vm_compute. reflexivity.
Defined.

(** X15 at [fsQuiet] with the targets [/d] and [/gone], the latter
    missing. *)
Lemma listForAll_open_witness :
  listForAll parentDir joinPath ascending elements fsQuiet
             (watching ["/d"; "/gone"] ∅)
  = (listErrors joinPath fsQuiet
       (elements (names (watching ["/d"; "/gone"] ∅))),
     inr (watching ["/d"; "/gone"] ∅,
          mergeListings joinPath fsQuiet
            (elements (names (watching ["/d"; "/gone"] ∅))))).
Proof.
  apply (listForAll_open parentDir joinPath ascending elements ascending_perm
           fsQuiet (watching ["/d"; "/gone"] ∅)).
  reflexivity.
Defined.

(** X16 at the same watcher. *)
Lemma listForAll_entries_witness :
  ∃ fileList,
    ending (listForAll parentDir joinPath ascending elements fsQuiet
              (watching ["/d"; "/gone"] ∅))
    = inr (watching ["/d"; "/gone"] ∅, fileList)
    ∧ (∀ p v, fileList !! p = Some v →
         ∃ name fl, name ∈ names (watching ["/d"; "/gone"] ∅)
                    ∧ listForName joinPath fsQuiet name = OK fl
                    ∧ fl !! p = Some v)
    ∧ (∀ name fl p, name ∈ names (watching ["/d"; "/gone"] ∅) →
         listForName joinPath fsQuiet name = OK fl →
         is_Some (fl !! p) → is_Some (fileList !! p)).
Proof.
  apply (listForAll_entries parentDir joinPath ascending elements
           ascending_perm (λ s, reflexivity (elements s))
           fsQuiet (watching ["/d"; "/gone"] ∅)).
  reflexivity.
Defined.

(** X17 at [snapP]. *)
Lemma pollEvents_unchanged_witness :
  pollEvents parentDir ascending (watching ["/d"] snapP)
             (files (watching ["/d"] snapP))
  = ([], inr tt).
Proof.
  apply (pollEvents_unchanged parentDir ascending ascending_perm
           (watching ["/d"] snapP)).
  - reflexivity.
  - change (map_Forall (λ (_ : string) (fi : FileInfo), is_Some fi)
              (files (watching ["/d"] snapP))).
    apply (bool_decide_unpack _). vm_compute. exact I.
Defined.

(** X18 at [snapP], [snapQ]: [/d/n] is new. *)
Lemma pollEvents_plain_create_witness :
  filter (λ ev, e_Path ev = "/d/n")
         (sent (pollEvents parentDir ascending (watching ["/d"] snapP) snapQ))
  = [mkEvent (regular 9 200 0) "/d/n" Create].
Proof.
  apply (pollEvents_plain_create parentDir ascending ascending_perm
           (watching ["/d"] snapP) snapQ "/d/n" (regular 9 200 0)).
  - reflexivity.
  - apply (bool_decide_unpack _). vm_compute. exact I.
  - vm_compute. reflexivity.
  - vm_compute. reflexivity.
  - change (map_Forall
              (λ removeFp removeFi,
                 snapQ !! removeFp = None →
                 SameFile removeFi (regular 9 200 0) = false)
              (files (watching ["/d"] snapP))).
    apply (bool_decide_unpack _). vm_compute. exact I.
Defined.

(** X19 at [snapP], [snapQ]: [/d/x] is gone. *)
Lemma pollEvents_plain_remove_witness :
  filter (λ ev, e_Path ev = "/d/x")
         (sent (pollEvents parentDir ascending (watching ["/d"] snapP) snapQ))
  = [mkEvent (regular 7 100 30) "/d/x" Remove].
Proof.
  apply (pollEvents_plain_remove parentDir ascending ascending_perm
           (watching ["/d"] snapP) snapQ "/d/x" (regular 7 100 30)).
  - reflexivity.
  - apply (bool_decide_unpack _). vm_compute. exact I.
  - vm_compute. reflexivity.
  - vm_compute. reflexivity.
  - change (map_Forall
              (λ createFp createFi,
                 files (watching ["/d"] snapP) !! createFp = None →
                 SameFile (regular 7 100 30) createFi = false)
              snapQ).
    apply (bool_decide_unpack _). vm_compute. exact I.
Defined.


(** X21 at [fsQuiet]: the cycle that finds [/d]. *)
Lemma tick_cycle_witness :
  tick parentDir joinPath ascending elements fsQuiet (watching ["/d"] ∅)
  = (listErrors joinPath fsQuiet (elements (names (watching ["/d"] ∅))),
     sent (pollEvents parentDir ascending (watching ["/d"] ∅)
             (mergeListings joinPath fsQuiet
                (elements (names (watching ["/d"] ∅))))),
     Some (set_files
             (mergeListings joinPath fsQuiet
                (elements (names (watching ["/d"] ∅))))
             (watching ["/d"] ∅))).
Proof.
  apply (tick_cycle parentDir joinPath ascending elements ascending_perm
           fsQuiet (watching ["/d"] ∅)).
  - reflexivity.
  - apply (bool_decide_unpack _). vm_compute. exact I.
Defined.

(** X22 at a run that adds [/d], starts, scans, calls [Close] and removes
    [/d]. *)
Lemma api_states_witness :
  (idle (Start NewWatcher).1 ∨ scanning (Start NewWatcher).1
   ∨ (shut (Start NewWatcher).1 ∧ names (Start NewWatcher).1 = ∅
      ∧ files (Start NewWatcher).1 = ∅))
  ∧ (wg (Start NewWatcher).1 ≤ 1)%nat
  ∧ (Start (Start NewWatcher).1).2 ≠ Some ErrWatcherClosed
  ∧ (wg (Start NewWatcher).1 ≠ 0%nat → closed (Start NewWatcher).1 = false).
Proof.
  apply (api_states parentDir joinPath ascending elements ascending_perm
           [ApiAdd fsQuiet "/d"; ApiStart; ApiTick fsQuiet; ApiClose;
            ApiRemove "/d"]
           (Start NewWatcher).1).
  vm_compute. reflexivity.
Defined.
